(** * A shallow embedding of the STOMP client of mrwill84/mq

    The development follows the Go sources of package [stomp]:
    - [options.go]  message options and the frame serializer [writeTo];
    - [conn.go]     the socket peer [connPeer] (reader task, Send, Close);
    - [client.go]   the client session ([incr], [Subscribe], [sendMessage],
                    [listen], ...).

    Go byte slices and strings are modelled as [string]; [int64] values are
    integers in [Z] whose wrap-around is written out with [wrap64]; Go maps
    are finite maps ([gmap]); a channel is the list of the values handed
    over on it and a closed flag.  A message given to a peer stays shared
    with it: what its sender reads of it afterwards is asked of the peer
    ([Peer.Kept]).

    Client code runs in a state-and-trace monad: a function of [client.go]
    is a function from the client state to an outcome (it returns, panics,
    waits for ever, ...) together with the state it leaves and the trace of
    what it did (mutex operations, writes to the guarded fields, hand-overs
    to the peer, log lines, ...).  Tasks are interleaved where the code
    makes one wait for another: while a caller of [sendMessage] waits for
    its receipt, the listen task handles the inbound frames one by one. *)

From Stdlib Require Import ZArith String Ascii DecimalString DecimalZ DecimalPos Lia.
From stdpp Require Import base option list gmap strings.

Local Open Scope Z_scope.
Local Open Scope string_scope.

Abbreviation bytes := string (only parsing).

(** ** Integers *)

(** Go's [int64] arithmetic wraps modulo 2^64 into [-2^63, 2^63). *)
Definition wrap64 (z : Z) : Z := (z + 2 ^ 63) mod 2 ^ 64 - 2 ^ 63.

(** [strconv.AppendInt(nil, i, 10)]: the decimal text of [i], with a leading
    minus sign for negative numbers and a single "0" for zero. *)
Definition AppendInt (i : Z) : bytes := NilZero.string_of_int (Z.to_int i).

(** ** Messages *)

(** One generic header item and the header set.  [itemc] counts the items
    in use; the backing vector [items] may be longer (pooled storage). *)
Record item := mkItem { name : bytes; data : bytes }.

Record HeaderSet := mkHeader { items : list item; itemc : Z }.

(** Modelled from the spec: [Header.Add] is not among the sources.  The
    header set is "an append-only growable vector of (name, data) byte
    pairs plus a count itemc": the pair is stored at position [itemc]
    (growing the vector when needed) and the count is advanced. *)
Definition Header_Add (h : HeaderSet) (n d : bytes) : HeaderSet :=
  let i := Z.to_nat (itemc h) in
  {| items := if decide (i < length (items h))%nat
              then <[i := mkItem n d]> (items h)
              else items h ++ [mkItem n d];
     itemc := itemc h + 1 |}.

(** The [Message] declaration is not among the sources.  [client.go] stores
    byte slices in [ID] and keys its maps by [string(m.Subs)], while
    [writeTo] formats [m.ID] and [m.Subs] with [strconv.AppendInt]; the type
    of identifiers is therefore a parameter [I] of the record. *)
Record Message {I : Type} := mkMessage {
  Proto : bytes;
  Method : bytes;
  ID : I;
  Subs : I;
  Dest : bytes;
  User : bytes;
  Pass : bytes;
  Ack : bytes;
  Prefetch : bytes;
  Persist : bytes;
  Retain : bytes;
  Expires : Z;
  Selector : bytes;
  Receipt : bytes;
  Header : HeaderSet;
  Body : bytes
}.
Arguments Message : clear implicits.
Arguments mkMessage {I}.

(** Equality of messages is decidable, field by field. *)
#[export] Instance item_eq_dec : EqDecision item.
Proof. solve_decision. Defined.

#[export] Instance HeaderSet_eq_dec : EqDecision HeaderSet.
Proof. solve_decision. Defined.

#[export] Instance Message_eq_dec {I : Type} `{EqDecision I} : EqDecision (Message I).
Proof. solve_decision. Defined.

(** Modelled from the spec: the method and header-name constants are not
    among the sources; they are the STOMP words listed in the data model and
    in the serializer's table. *)
Definition MethodStomp : bytes := "STOMP".
Definition MethodConnect : bytes := "CONNECT".
Definition MethodConnected : bytes := "CONNECTED".
Definition MethodSend : bytes := "SEND".
Definition MethodSubscribe : bytes := "SUBSCRIBE".
Definition MethodUnsubscribe : bytes := "UNSUBSCRIBE".
Definition MethodAck : bytes := "ACK".
Definition MethodNack : bytes := "NACK".
Definition MethodDisconnect : bytes := "DISCONNECT".
Definition MethodMessage : bytes := "MESSAGE".
Definition MethodRecipet : bytes := "RECEIPT".
Definition MethodError : bytes := "ERROR".

Definition HeaderAccept : bytes := "accept-version".
Definition HeaderAck : bytes := "ack".
Definition HeaderDest : bytes := "destination".
Definition HeaderExpires : bytes := "expires".
Definition HeaderLogin : bytes := "login".
Definition HeaderPass : bytes := "passcode".
Definition HeaderID : bytes := "id".
Definition HeaderMessageID : bytes := "message-id".
Definition HeaderPersist : bytes := "persistent".
Definition HeaderPrefetch : bytes := "prefetch-count".
Definition HeaderReceiptID : bytes := "receipt-id".
Definition HeaderRetain : bytes := "retain".
Definition HeaderSelector : bytes := "selector".
Definition HeaderSubscription : bytes := "subscription".
Definition HeaderVersion : bytes := "version".

(** Modelled from the spec: the protocol version sent by [Connect]. *)
Definition STOMP : bytes := "1.2".

(** Modelled from the spec: [NewMessage] is not among the sources; it
    returns a cleared message, "all byte-slice fields truncated to zero
    length and all integer fields zero". *)
Definition NewMessage {I} (zero : I) : Message I :=
  mkMessage "" "" zero zero "" "" "" "" "" "" "" 0 "" "" (mkHeader [] 0) "".

(** Modelled from the spec: [Release] is not among the sources.  It returns
    the message to the pool and "MUST zero all byte-slice lengths (keeping
    capacity) and reset integers": whoever still holds the pointer reads
    the fields of a cleared message.  (The pool may hand the storage to a
    later [NewMessage]; what that caller then stores is not followed.) *)
Definition Release {I} (zero : I) (m : Message I) : Message I := NewMessage zero.

Section Setters.
Context {I : Type}.
Implicit Types m : Message I.

Definition set_Proto m v := mkMessage v (Method m) (ID m) (Subs m) (Dest m) (User m) (Pass m) (Ack m) (Prefetch m) (Persist m) (Retain m) (Expires m) (Selector m) (Receipt m) (Header m) (Body m).
Definition set_Method m v := mkMessage (Proto m) v (ID m) (Subs m) (Dest m) (User m) (Pass m) (Ack m) (Prefetch m) (Persist m) (Retain m) (Expires m) (Selector m) (Receipt m) (Header m) (Body m).
Definition set_ID m v := mkMessage (Proto m) (Method m) v (Subs m) (Dest m) (User m) (Pass m) (Ack m) (Prefetch m) (Persist m) (Retain m) (Expires m) (Selector m) (Receipt m) (Header m) (Body m).
Definition set_Dest m v := mkMessage (Proto m) (Method m) (ID m) (Subs m) v (User m) (Pass m) (Ack m) (Prefetch m) (Persist m) (Retain m) (Expires m) (Selector m) (Receipt m) (Header m) (Body m).
Definition set_User m v := mkMessage (Proto m) (Method m) (ID m) (Subs m) (Dest m) v (Pass m) (Ack m) (Prefetch m) (Persist m) (Retain m) (Expires m) (Selector m) (Receipt m) (Header m) (Body m).
Definition set_Pass m v := mkMessage (Proto m) (Method m) (ID m) (Subs m) (Dest m) (User m) v (Ack m) (Prefetch m) (Persist m) (Retain m) (Expires m) (Selector m) (Receipt m) (Header m) (Body m).
Definition set_Ack m v := mkMessage (Proto m) (Method m) (ID m) (Subs m) (Dest m) (User m) (Pass m) v (Prefetch m) (Persist m) (Retain m) (Expires m) (Selector m) (Receipt m) (Header m) (Body m).
Definition set_Prefetch m v := mkMessage (Proto m) (Method m) (ID m) (Subs m) (Dest m) (User m) (Pass m) (Ack m) v (Persist m) (Retain m) (Expires m) (Selector m) (Receipt m) (Header m) (Body m).
Definition set_Retain m v := mkMessage (Proto m) (Method m) (ID m) (Subs m) (Dest m) (User m) (Pass m) (Ack m) (Prefetch m) (Persist m) v (Expires m) (Selector m) (Receipt m) (Header m) (Body m).
Definition set_Expires m v := mkMessage (Proto m) (Method m) (ID m) (Subs m) (Dest m) (User m) (Pass m) (Ack m) (Prefetch m) (Persist m) (Retain m) v (Selector m) (Receipt m) (Header m) (Body m).
Definition set_Selector m v := mkMessage (Proto m) (Method m) (ID m) (Subs m) (Dest m) (User m) (Pass m) (Ack m) (Prefetch m) (Persist m) (Retain m) (Expires m) v (Receipt m) (Header m) (Body m).
Definition set_Receipt m v := mkMessage (Proto m) (Method m) (ID m) (Subs m) (Dest m) (User m) (Pass m) (Ack m) (Prefetch m) (Persist m) (Retain m) (Expires m) (Selector m) v (Header m) (Body m).
Definition set_Header m v := mkMessage (Proto m) (Method m) (ID m) (Subs m) (Dest m) (User m) (Pass m) (Ack m) (Prefetch m) (Persist m) (Retain m) (Expires m) (Selector m) (Receipt m) v (Body m).
Definition set_Body m v := mkMessage (Proto m) (Method m) (ID m) (Subs m) (Dest m) (User m) (Pass m) (Ack m) (Prefetch m) (Persist m) (Retain m) (Expires m) (Selector m) (Receipt m) (Header m) v.

(** ** options.go: message options *)

(** [MessageOption] is a Go function from a message pointer to nothing: an
    option updates the message. *)
Definition MessageOption := Message I -> Message I.

Definition WithCredentials (username password : string) : MessageOption :=
  fun m => set_Pass (set_User m username) password.

Definition WithHeader (key value : string) : MessageOption :=
  fun m => set_Header m (Header_Add (Header m) key value).

Definition WithExpires (exp : Z) : MessageOption :=
  fun m => set_Expires m exp.

Definition WithPrefetch (prefetch : Z) : MessageOption :=
  fun m => set_Prefetch m (AppendInt prefetch).

(** [WithReceipt] draws the receipt id from [rand.Int63()]; the number
    drawn is the argument [r] here. *)
Definition WithReceipt (r : Z) : MessageOption :=
  fun m => set_Receipt m (AppendInt r).

Definition WithRetain (retain : string) : MessageOption :=
  fun m => set_Retain m retain.

Definition WithSelector (selector : string) : MessageOption :=
  fun m => set_Selector m selector.

Definition WithAck (ack : string) : MessageOption :=
  fun m => set_Ack m ack.

(** Modelled from the spec: [Message.Apply] is not among the sources; it
    runs the options over the message, in order. *)
Definition Apply (m : Message I) (opts : list MessageOption) : Message I :=
  fold_left (fun m o => o m) opts m.
End Setters.

(** ** options.go: the serializer *)

Definition newline : bytes := String "013" (String "010" "").
Definition separator : bytes := ":".
Definition terminator : bytes := String "000" "".

Definition includeReceiptHeader {I} (m : Message I) : bool :=
  negb (String.length (Receipt m) =? 0)%nat && negb (String.eqb (Method m) MethodRecipet).

(** One [name ":" value CRLF] run of four [w.Write] calls. *)
Definition writeHeader (n v : bytes) : bytes := n +:+ separator +:+ v +:+ newline.

(** [if len(v) != 0 { ... }] around such a run. *)
Definition writeIfSet (n v : bytes) : bytes :=
  if (String.length v =? 0)%nat then "" else writeHeader n v.

(** The [switch] of [writeTo]: the headers owned by the method. *)
Definition writeMethodHeaders (m : Message Z) : bytes :=
  if String.eqb (Method m) MethodStomp then
    writeHeader HeaderAccept (Proto m) +:+
    writeIfSet HeaderLogin (User m) +:+
    writeIfSet HeaderPass (Pass m)
  else if String.eqb (Method m) MethodConnected then
    writeHeader HeaderVersion (Proto m)
  else if String.eqb (Method m) MethodSend then
    writeHeader HeaderDest (Dest m) +:+
    (if (Expires m =? 0)%Z then "" else writeHeader HeaderExpires (AppendInt (Expires m))) +:+
    writeIfSet HeaderRetain (Retain m) +:+
    writeIfSet HeaderPersist (Persist m)
  else if String.eqb (Method m) MethodSubscribe then
    writeHeader HeaderID (AppendInt (ID m)) +:+
    writeHeader HeaderDest (Dest m) +:+
    writeIfSet HeaderSelector (Selector m) +:+
    writeIfSet HeaderPrefetch (Prefetch m) +:+
    writeIfSet HeaderAck (Ack m)
  else if String.eqb (Method m) MethodUnsubscribe then
    writeHeader HeaderID (AppendInt (ID m))
  else if String.eqb (Method m) MethodAck then
    writeHeader HeaderID (AppendInt (ID m))
  else if String.eqb (Method m) MethodNack then
    writeHeader HeaderID (AppendInt (ID m))
  else if String.eqb (Method m) MethodMessage then
    writeHeader HeaderMessageID (AppendInt (ID m)) +:+
    writeHeader HeaderDest (Dest m) +:+
    writeHeader HeaderSubscription (AppendInt (Subs m)) +:+
    writeIfSet HeaderAck (Ack m)
  else if String.eqb (Method m) MethodRecipet then
    writeHeader HeaderReceiptID (Receipt m)
  else "".

(** The loop over [m.Header.items]: it stops at index [itemc]. *)
Fixpoint writeItems (c : Z) (i : Z) (l : list item) : bytes :=
  match l with
  | [] => ""
  | it :: rest =>
      if (c =? i)%Z then ""
      else writeHeader (name it) (data it) +:+ writeItems c (i + 1) rest
  end.

(** [writeTo(w, m)]: the bytes written to [w], in order. *)
Definition writeTo (m : Message Z) : bytes :=
  Method m +:+ newline +:+
  writeMethodHeaders m +:+
  (if includeReceiptHeader m then writeHeader HeaderReceiptID (Receipt m) else "") +:+
  writeItems (itemc (Header m)) 0 (items (Header m)) +:+
  newline +:+
  Body m.

(** ** Errors, panics and channels *)

(** Go [error] values met in the package: [io.EOF], errors built with
    [fmt.Errorf], and the run-time errors raised by the Go runtime. *)
Inductive error :=
| EOF
| Errorf (s : string)
| RuntimeError (s : string).

(** A Go [interface{}] value, as carried by [panic]: either an [error] or
    something that is not one. *)
Inductive any :=
| AnyError (e : error)
| AnyString (s : string)
| AnyInt (z : Z).

(** The result of a call that may panic. *)
Inductive result (A : Type) :=
| Ok (a : A)
| Panic (v : any).
Arguments Ok {A} a.
Arguments Panic {A} v.

(** A channel: the values handed over and not yet received, and the closed
    flag. *)
Record chan (A : Type) := mkChan { buf : list A; closed : bool }.
Arguments mkChan {A}.
Arguments buf {A}.
Arguments closed {A}.

Definition make_chan {A} : chan A := mkChan [] false.

(** [close(ch)] panics on a closed channel. *)
Definition chan_close {A} (ch : chan A) : result (chan A) :=
  if closed ch then Panic (AnyError (RuntimeError "close of closed channel"))
  else Ok (mkChan (buf ch) true).

(** [ch <- a] panics on a closed channel; otherwise the value is handed
    over (the receiving task takes the values in order).  [buf] lists the
    values handed over: the wait of a sender for its receiver on a channel
    without capacity is not part of this function.  For the reader task
    that wait, and a close that lands in it, are followed step by step in
    [readIntoStep]. *)
Definition chan_send {A} (ch : chan A) (a : A) : result (chan A) :=
  if closed ch then Panic (AnyError (RuntimeError "send on closed channel"))
  else Ok (mkChan (buf ch ++ [a]) (closed ch)).

(** ** The Peer interface *)

(** [Receive p] is one receive [m, ok := <-p.Receive()]: [None] when the
    receive would wait, [Some (None, p)] when the channel is closed
    ([ok = false]), [Some (Some m, p')] when [m] is received. *)
Module Peer.
Class Peer (I P : Type) := {
  Receive : P -> option (option (Message I) * P);
  Send : P -> Message I -> result (option error * P);
  Addr : P -> string;
  Close : P -> result (option error * P);
  (** [Send] is given a pointer, and the peer may keep it: [Kept p m] is
      what the sender reads through its own pointer, the peer being in
      state [p], of a message that it gave to [Send] with the fields [m]. *)
  Kept : P -> Message I -> Message I
}.
End Peer.

(** ** conn.go: the socket peer *)

Definition bufferSize : Z := Z.shiftl 32 10.
Definition bufferLimit : Z := Z.shiftl 32 15.

(** [bufio.Reader.ReadBytes(delim)] over the bytes [s] still to come from
    the socket: the bytes up to and including the first [delim], the bytes
    left, and no error; or, when the stream ends first, what was read and
    the read error. *)
Fixpoint ReadBytes (delim : ascii) (s : bytes) : bytes * bytes * option error :=
  match s with
  | EmptyString => ("", "", Some EOF)
  | String a rest =>
      if Ascii.eqb a delim then (String a "", rest, None)
      else let '(b, r, e) := ReadBytes delim rest in (String a b, r, e)
  end.

(** [buf[:len(buf)-1]] *)
Fixpoint dropLast (s : bytes) : bytes :=
  match s with
  | EmptyString => ""
  | String a EmptyString => ""
  | String a rest => String a (dropLast rest)
  end.

Inductive chan_name := ChDone | ChIncoming | ChOutgoing.

Module conn.
Section WithParse.
Context {I : Type} (zero : I).
(** [Message.Parse] is not among the sources; [readInto] discards its error
    result and hands the message over in every case, so the parser is a
    parameter: [Parse m b] is [m] after [m.Parse(b)]. *)
Variable Parse : Message I -> bytes -> Message I.

(** The peer: [rx] is what the socket [conn] (behind [reader]) still
    delivers before its read fails; [beats] counts the read-deadline
    extensions made for heart-beats. *)
Record connPeer := mk {
  remote : string;
  rx : bytes;
  beats : nat;
  done : chan bool;
  incoming : chan (Message I);
  outgoing : chan (Message I)
}.

Definition set_rx (c : connPeer) (v : bytes) : connPeer :=
  mk (remote c) v (beats c) (done c) (incoming c) (outgoing c).
Definition set_beats (c : connPeer) (v : nat) : connPeer :=
  mk (remote c) (rx c) v (done c) (incoming c) (outgoing c).
Definition set_done (c : connPeer) (v : chan bool) : connPeer :=
  mk (remote c) (rx c) (beats c) v (incoming c) (outgoing c).
Definition set_incoming (c : connPeer) (v : chan (Message I)) : connPeer :=
  mk (remote c) (rx c) (beats c) (done c) v (outgoing c).
Definition set_outgoing (c : connPeer) (v : chan (Message I)) : connPeer :=
  mk (remote c) (rx c) (beats c) (done c) (incoming c) v.

(** [Conn(c)]: a peer over a socket that will deliver [input]. *)
Definition Conn (addr : string) (input : bytes) : connPeer :=
  mk addr input 0 make_chan make_chan make_chan.

Definition Receive (c : connPeer) : option (option (Message I) * connPeer) :=
  match buf (incoming c) with
  | m :: rest => Some (Some m, set_incoming c (mkChan rest (closed (incoming c))))
  | [] => if closed (incoming c) then Some (None, c) else None
  end.

(** [select { case <-c.done: ...; default: ... }]: the first case is ready
    exactly when [done] is closed (nothing is ever sent on it). *)
Definition Send (c : connPeer) (message : Message I) : result (option error * connPeer) :=
  if closed (done c) then Ok (Some EOF, c)
  else match chan_send (outgoing c) message with
       | Ok ch => Ok (None, set_outgoing c ch)
       | Panic v => Panic v
       end.

Definition Addr (c : connPeer) : string := remote c.

(** A message on [outgoing] is with the writer task, which serializes it
    and releases it straight away ([writeFrom], [drain]: [writeTo],
    [WriteByte(0)], [msg.Release()]), before the closing NUL is flushed to
    the socket and so before any answer to the frame.  [sendMessage] reads
    a message again when its send has failed or when the receipt for it has
    come in: a message on [outgoing] is a released message by then, one
    that [Send] did not put there is as it was.  Messages are told apart by
    their fields. *)
Definition Kept `{EqDecision (Message I)} (c : connPeer) (m : Message I) : Message I :=
  if bool_decide (m ∈ buf (outgoing c)) then Release zero m else m.

(** [close]: the third component lists the channels closed, in order. *)
Definition close (c : connPeer) : result (option error * connPeer * list chan_name) :=
  if closed (done c) then Ok (Some EOF, c, [])
  else
    match chan_close (done c) with
    | Panic v => Panic v
    | Ok d =>
      match chan_close (incoming c) with
      | Panic v => Panic v
      | Ok i =>
        match chan_close (outgoing c) with
        | Panic v => Panic v
        | Ok o => Ok (None, set_outgoing (set_incoming (set_done c d) i) o,
                      [ChDone; ChIncoming; ChOutgoing])
        end
      end
    end.

Definition Close (c : connPeer) : result (option error * connPeer * list chan_name) := close c.

(** The [for] loop of [readInto].  [None] stands for a loop that has not
    finished within [fuel] iterations. *)
Fixpoint readLoop (fuel : nat) (c : connPeer) : option (result connPeer) :=
  match fuel with
  | O => None
  | S fuel =>
      let '(b, rest, err) := ReadBytes "000" (rx c) in
      let c := set_rx c rest in
      match err with
      | Some _ => Some (Ok c)
      | None =>
          if (String.length b =? 1)%nat then readLoop fuel (set_beats c (S (beats c)))
          else
            let msg := Parse (NewMessage zero) (dropLast b) in
            if closed (done c) then readLoop fuel c
            else match chan_send (incoming c) msg with
                 | Ok ch => readLoop fuel (set_incoming c ch)
                 | Panic v => Some (Panic v)
                 end
      end
  end.

(** [readInto]: the loop, then the deferred [c.close()].  A panic of the
    reader task is recovered nowhere and ends the program.  Every iteration
    that does not leave the loop consumes at least one byte, so
    [S (length rx)] iterations are enough (see [readLoop_fuel]). *)
Definition readInto (c : connPeer) : option (result connPeer) :=
  match readLoop (S (String.length (rx c))) c with
  | None => None
  | Some (Ok c') =>
      match close c' with
      | Ok (_, c'', _) => Some (Ok c'')
      | Panic v => Some (Panic v)
      end
  | Some (Panic v) => Some (Panic v)
  end.

End WithParse.
End conn.

#[export] Instance connPeer_Peer : Peer.Peer string (@conn.connPeer string) := {
  Peer.Receive := conn.Receive;
  Peer.Send := conn.Send;
  Peer.Addr := conn.Addr;
  Peer.Close := fun c =>
    match conn.Close c with
    | Ok (e, c', _) => Ok (e, c')
    | Panic v => Panic v
    end;
  Peer.Kept := conn.Kept ""
}.

(** ** client.go: the client session *)

Inductive level := Verbose | Notice | Warning.

(** [Handler]: [Handle(m)] returns ([None]) or panics with a value. *)
Definition Handler := Message string -> option any.

(** What a run of client code does, in order: operations on the mutex, on
    the guarded fields, on the peer and on channels, handler calls, pool
    releases and log lines. *)
Inductive event :=
| EvLock
| EvUnlock
| EvSeq (v : Z)
| EvSubsSet (k : string)
| EvSubsDel (k : string)
| EvWaitSet (k : string) (ch : nat)
| EvWaitDel (k : string)
| EvPeerSend (m : Message string)
| EvPeerRecv (m : option (Message string))
| EvPeerClose
| EvTokenSend (ch : nat)
| EvTokenRecv (ch : nat)
| EvDone (e : error)
| EvHandle (k : string) (m : Message string)
| EvRelease (m : Message string)
| EvLog (l : level) (fmt : string) (arg : any)
| EvGoListen.

Module client.
Section WithPeer.
Context {P : Type} `{Peer.Peer string P}.

(** The [Client] struct ([skipVerify], the buffer sizes and [timeout] are
    read by none of the functions below and are left out).  [done] is the
    buffer of the capacity-1 channel.  The last two fields are run-time
    state rather than fields of the struct: [chans] holds the receipt
    channels made by [sendMessage] (a channel is named by its index, its
    content is the number of tokens buffered), and [listening] tells
    whether the listen task started by [Connect] is still running. *)
Record Client := mkClient {
  mu : bool;
  peer : P;
  subs : gmap string Handler;
  wait : gmap string nat;
  done : list error;
  seq : Z;
  chans : list nat;
  listening : bool
}.

Definition set_mu (c : Client) v := mkClient v (peer c) (subs c) (wait c) (done c) (seq c) (chans c) (listening c).
Definition set_peer (c : Client) v := mkClient (mu c) v (subs c) (wait c) (done c) (seq c) (chans c) (listening c).
Definition set_subs (c : Client) v := mkClient (mu c) (peer c) v (wait c) (done c) (seq c) (chans c) (listening c).
Definition set_wait (c : Client) v := mkClient (mu c) (peer c) (subs c) v (done c) (seq c) (chans c) (listening c).
Definition set_done (c : Client) v := mkClient (mu c) (peer c) (subs c) (wait c) v (seq c) (chans c) (listening c).
Definition set_seq (c : Client) v := mkClient (mu c) (peer c) (subs c) (wait c) (done c) v (chans c) (listening c).
Definition set_chans (c : Client) v := mkClient (mu c) (peer c) (subs c) (wait c) (done c) (seq c) v (listening c).
Definition set_listening (c : Client) v := mkClient (mu c) (peer c) (subs c) (wait c) (done c) (seq c) (chans c) v.

(** *** Runs *)

(** A run of a task from a client state ends in one of five ways: it
    returns, it panics, the program is ended (by a panic that another task
    did not recover, or by a fatal run-time error), it waits for ever on a
    mutex or a channel, or it is cut off where the bound on the number of
    inbound frames handled is used up. *)
Inductive res (A : Type) :=
| Ret (a : A) (c : Client) (t : list event)
| Panics (v : any) (c : Client) (t : list event)
| Aborts (v : any) (c : Client) (t : list event)
| Blocks (c : Client) (t : list event)
| NoFuel (c : Client) (t : list event).
Arguments Ret {A}.
Arguments Panics {A}.
Arguments Aborts {A}.
Arguments Blocks {A}.
Arguments NoFuel {A}.

Definition M (A : Type) := Client -> res A.

Definition before {A} (t : list event) (r : res A) : res A :=
  match r with
  | Ret a c t' => Ret a c (t ++ t')
  | Panics v c t' => Panics v c (t ++ t')
  | Aborts v c t' => Aborts v c (t ++ t')
  | Blocks c t' => Blocks c (t ++ t')
  | NoFuel c t' => NoFuel c (t ++ t')
  end.

Definition ret {A} (a : A) : M A := fun c => Ret a c [].

Definition bind {A B} (m : M A) (f : A -> M B) : M B := fun c =>
  match m c with
  | Ret a c' t => before t (f a c')
  | Panics v c' t => Panics v c' t
  | Aborts v c' t => Aborts v c' t
  | Blocks c' t => Blocks c' t
  | NoFuel c' t => NoFuel c' t
  end.

Notation "'let*' x := m 'in' k" := (bind m (fun x => k))
  (at level 10, x name, m at level 100, k at level 200).
Notation "'let*' '_' := m 'in' k" := (bind m (fun _ => k))
  (at level 10, m at level 100, k at level 200).

Definition panic {A} (v : any) : M A := fun c => Panics v c [].

(** [defer d] around [body]: [d] runs when [body] returns and when it
    panics (the panic goes on afterwards), not while it waits nor when the
    program is ended by another task. *)
Definition defer {A} (d : M unit) (body : M A) : M A := fun c =>
  match body c with
  | Ret a c' t => before t ((let* _ := d in ret a) c')
  | Panics v c' t => before t ((let* _ := d in panic v) c')
  | Aborts v c' t => Aborts v c' t
  | Blocks c' t => Blocks c' t
  | NoFuel c' t => NoFuel c' t
  end.

(** A deferred function that calls [recover()]: it handles the panic value
    and the surrounding function then returns normally. *)
Definition recovering {A} (h : any -> M A) (body : M A) : M A := fun c =>
  match body c with
  | Panics v c' t => before t (h v c')
  | r => r
  end.

(** A step of another task, run while this one waits: a panic that the
    other task does not recover ends the program. *)
Definition otherTask {A} (m : M A) : M A := fun c =>
  match m c with
  | Panics v c' t => Aborts v c' t
  | r => r
  end.

(** *** Statements *)

Definition Lock : M unit := fun c =>
  if mu c then Blocks c [] else Ret tt (set_mu c true) [EvLock].

Definition Unlock : M unit := fun c =>
  if mu c then Ret tt (set_mu c false) [EvUnlock]
  else Aborts (AnyError (RuntimeError "fatal error: sync: unlock of unlocked mutex")) c [].

Definition log (l : level) (fmt : string) (arg : any) : M unit := fun c =>
  Ret tt c [EvLog l fmt arg].

Definition release (m : Message string) : M unit := fun c =>
  Ret tt c [EvRelease m].

(** [c.peer.Send(m)] *)
Definition peerSend (m : Message string) : M (option error) := fun c =>
  match Peer.Send (peer c) m with
  | Ok (e, p) => Ret e (set_peer c p) [EvPeerSend m]
  | Panic v => Panics v c [EvPeerSend m]
  end.

(** [m, ok := <-c.peer.Receive()] *)
Definition peerReceive : M (option (Message string)) := fun c =>
  match Peer.Receive (peer c) with
  | None => Blocks c []
  | Some (om, p) => Ret om (set_peer c p) [EvPeerRecv om]
  end.

(** [c.peer.Close()] *)
Definition peerClose : M (option error) := fun c =>
  match Peer.Close (peer c) with
  | Ok (e, p) => Ret e (set_peer c p) [EvPeerClose]
  | Panic v => Panics v c [EvPeerClose]
  end.

(** [c.done <- e] on the capacity-1 channel. *)
Definition doneSend (e : error) : M unit := fun c =>
  match done c with
  | [] => Ret tt (set_done c [e]) [EvDone e]
  | _ => Blocks c []
  end.

(** [make(chan struct{}, 1)] *)
Definition makeChan : M nat := fun c =>
  Ret (length (chans c)) (set_chans c (chans c ++ [O])) [].

(** [receiptc <- struct{}{}] on a capacity-1 channel. *)
Definition tokenSend (ch : nat) : M unit := fun c =>
  match chans c !! ch with
  | Some O => Ret tt (set_chans c (<[ch := 1%nat]> (chans c))) [EvTokenSend ch]
  | _ => Blocks c []
  end.

(** A receive from a receipt channel, when a token is there. *)
Definition tokenRecv (ch : nat) : M bool := fun c =>
  match chans c !! ch with
  | Some (S n) => Ret true (set_chans c (<[ch := n]> (chans c))) [EvTokenRecv ch]
  | _ => Ret false c []
  end.

Definition stopListening : M unit := fun c => Ret tt (set_listening c false) [].

(** *** The functions of client.go *)

Definition New (peer : P) : Client := mkClient false peer ∅ ∅ [] 0 [] false.

Definition Done (c : Client) : list error := done c.

Definition incr : M bytes :=
  let* _ := Lock in
  let* i := (fun c => Ret (seq c) c []) in
  let* _ := (fun c => Ret tt (set_seq c (wrap64 (seq c + 1))) [EvSeq (wrap64 (seq c + 1))]) in
  let* _ := Unlock in
  ret (AppendInt i).

Definition handleReceipt (m : Message string) : M unit :=
  let* _ := Lock in
  let* r := (fun c => Ret (wait c !! Receipt m) c []) in
  let* _ := Unlock in
  match r with
  | None => log Notice "stomp client: unknown read receipt: %s" (AnyString (Receipt m))
  | Some receiptc => tokenSend receiptc
  end.

Definition handleMessage (m : Message string) : M unit :=
  let* _ := Lock in
  let* r := (fun c => Ret (subs c !! Subs m) c []) in
  let* _ := Unlock in
  match r with
  | None => log Notice "stomp client: subscription not found: %s" (AnyString (Subs m))
  | Some handler => fun c =>
      match handler m with
      | None => Ret tt c [EvHandle (Subs m) m]
      | Some v => Panics v c [EvHandle (Subs m) m]
      end
  end.

(** One pass through the body of the [for] loop of [listen]; [false] when
    the function returns. *)
Definition listenIter : M bool :=
  let* om := peerReceive in
  match om with
  | None => let* _ := doneSend EOF in ret false
  | Some m =>
      let* _ :=
        (if String.eqb (Method m) MethodMessage then handleMessage m
         else if String.eqb (Method m) MethodRecipet then handleReceipt m
         else log Notice "stomp client: unknown message type: %s" (AnyString (Method m))) in
      ret true
  end.

Fixpoint listenLoop (fuel : nat) : M unit :=
  match fuel with
  | O => fun c => NoFuel c []
  | S fuel => let* continue := listenIter in
              if continue then listenLoop fuel else ret tt
  end.

(** The deferred function of [listen], for a panic value [r]: the type
    assertion [r.(error)] has no second result, so it panics when [r] is
    not an [error]. *)
Definition listenRecover (r : any) : M unit :=
  let* _ := log Warning "stomp client: recover panic: %s" r in
  match r with
  | AnyError e => doneSend e
  | _ => panic (AnyError (RuntimeError "interface conversion: interface {} is not error"))
  end.

Definition listen (fuel : nat) : M unit :=
  let* _ := recovering listenRecover (listenLoop fuel) in
  stopListening.

(** The listen task advanced by one iteration (see [listen_step]). *)
Definition listenStep : M unit :=
  recovering (fun r => let* _ := listenRecover r in stopListening)
    (let* continue := listenIter in
     if continue then ret tt else stopListening).

(** [<-receiptc]: while the caller waits the listen task runs, one inbound
    frame after the other, until a token is there; with no listen task, or
    when that task waits itself, the caller waits for ever. *)
Fixpoint await (fuel : nat) (receiptc : nat) : M unit :=
  let* got := tokenRecv receiptc in
  if got then ret tt
  else fun c =>
    if listening c then
      match fuel with
      | O => NoFuel c []
      | S fuel => (let* _ := otherTask listenStep in await fuel receiptc) c
      end
    else Blocks c [].

(** [sendMessage]: the deferred function reads [m.Receipt] when it runs,
    through the pointer that [Send] has given to the peer in between. *)
Definition sendMessage (fuel : nat) (m : Message string) : M (option error) :=
  if (String.length (Receipt m) =? 0)%nat then peerSend m
  else
    let* receiptc := makeChan in
    let* _ := (fun c => Ret tt (set_wait c (<[Receipt m := receiptc]> (wait c)))
                          [EvWaitSet (Receipt m) receiptc]) in
    defer (fun c =>
             let k := Receipt (Peer.Kept (peer c) m) in
             Ret tt (set_wait c (delete k (wait c))) [EvWaitDel k])
      (let* err := peerSend m in
       match err with
       | Some e => ret (Some e)
       | None => let* _ := await fuel receiptc in ret None
       end).

Definition Send (fuel : nat) (dest : string) (data : bytes)
    (opts : list MessageOption) : M (option error) :=
  let m := NewMessage "" in
  let m := set_Method m MethodSend in
  let m := set_Dest m dest in
  let m := set_Body m data in
  let m := Apply m opts in
  sendMessage fuel m.

(** [SendJSON]: [enc] is the result of [json.Marshal(v)]. *)
Definition SendJSON (fuel : nat) (dest : string) (enc : bytes + error)
    (opts : list MessageOption) : M (option error) :=
  match enc with
  | inr err => ret (Some err)
  | inl data => Send fuel dest data (opts ++ [WithHeader "content-type" "application/json"])
  end.

Definition Subscribe (fuel : nat) (dest : string) (handler : Handler)
    (opts : list MessageOption) : M (bytes * option error) :=
  let* id := incr in
  let m := NewMessage "" in
  let m := set_Method m MethodSubscribe in
  let m := set_ID m id in
  let m := set_Dest m dest in
  let m := Apply m opts in
  let* _ := Lock in
  let* _ := (fun c => Ret tt (set_subs c (<[id := handler]> (subs c))) [EvSubsSet id]) in
  let* _ := Unlock in
  let* err := sendMessage fuel m in
  match err with
  | Some e =>
      let* _ := Lock in
      let* _ := (fun c => Ret tt (set_subs c (delete id (subs c))) [EvSubsDel id]) in
      let* _ := Unlock in
      ret (id, Some e)
  | None => ret (id, None)
  end.

Definition Unsubscribe (fuel : nat) (id : bytes) (opts : list MessageOption) : M (option error) :=
  let* _ := Lock in
  let* _ := (fun c => Ret tt (set_subs c (delete id (subs c))) [EvSubsDel id]) in
  let* _ := Unlock in
  let m := NewMessage "" in
  let m := set_Method m MethodUnsubscribe in
  let m := set_ID m id in
  let m := Apply m opts in
  sendMessage fuel m.

Definition Ack (fuel : nat) (id : bytes) (opts : list MessageOption) : M (option error) :=
  let m := NewMessage "" in
  let m := set_Method m MethodAck in
  let m := set_ID m id in
  let m := Apply m opts in
  sendMessage fuel m.

Definition Nack (id : bytes) (opts : list MessageOption) : M (option error) :=
  let m := NewMessage "" in
  let m := set_Method m MethodNack in
  let m := set_ID m id in
  let m := Apply m opts in
  peerSend m.

Definition Connect (fuel : nat) (opts : list MessageOption) : M (option error) :=
  let m := NewMessage "" in
  let m := set_Proto m STOMP in
  let m := set_Method m MethodStomp in
  let m := Apply m opts in
  let* err := sendMessage fuel m in
  match err with
  | Some e => ret (Some e)
  | None =>
      let* om := peerReceive in
      match om with
      | None => ret (Some EOF)
      | Some m =>
          defer (release m)
            (if negb (String.eqb (Method m) MethodConnected)
             then ret (Some (Errorf "stomp: inbound message: unexpected method, want connected"))
             else let* _ := (fun c => Ret tt (set_listening c true) [EvGoListen]) in
                  ret None)
      end
  end.

Definition Disconnect (fuel : nat) : M (option error) :=
  let m := NewMessage "" in
  let m := set_Method m MethodDisconnect in
  let* _ := sendMessage fuel m in
  peerClose.

End WithPeer.
Arguments Client P : clear implicits.
Arguments res P A : clear implicits.
Arguments M P A : clear implicits.
Arguments Ret {P A}.
Arguments Panics {P A}.
Arguments Aborts {P A}.
Arguments Blocks {P A}.
Arguments NoFuel {P A}.
End client.

(** * Inputs and predicates used in the statements *)

(** The frame built by [Send("/q", "hello", WithReceipt())] when the
    receipt id drawn is 42, with the integer identifiers of [writeTo]. *)
Definition sendWithReceipt : Message Z :=
  Apply (set_Body (set_Dest (set_Method (NewMessage 0%Z) MethodSend) "/q") "hello")
        [WithReceipt 42].

(** The generic header lines of a list of items. *)
Definition headerLines (l : list item) : bytes :=
  fold_right (fun it acc => writeHeader (name it) (data it) +:+ acc) "" l.

(** No NUL byte in a string. *)
Fixpoint no_nul (s : bytes) : bool :=
  match s with
  | EmptyString => true
  | String a rest => negb (Ascii.eqb a "000") && no_nul rest
  end.

(** [doubled n s]: [s] repeated [2 ^ n] times. *)
Fixpoint doubled (n : nat) (s : bytes) : bytes :=
  match n with
  | O => s
  | S n => doubled n (s +:+ s)
  end.

(** A frame of 2^20 + 1 bytes, one byte over 1 MiB. *)
Definition oversized : bytes := String "a" (doubled 20 "a").

(** The channels of a peer are closed together. *)
Definition closed_together {I} (c : @conn.connPeer I) : Prop :=
  closed (conn.incoming c) = closed (conn.done c) /\
  closed (conn.outgoing c) = closed (conn.done c).

(** The peer reached from [c] by [k] further calls of [Close]. *)
Fixpoint closedAgain {I} (k : nat) (c : @conn.connPeer I) : @conn.connPeer I :=
  match k with
  | O => c
  | S k => match conn.Close c with
           | Ok (_, c', _) => closedAgain k c'
           | Panic _ => c
           end
  end.

(** *** Observing runs of the client *)

Section Observations.
Context {P : Type} `{Peer.Peer string P}.
Import client.

Definition valueOf {A} (r : res P A) : option A :=
  match r with Ret a _ _ => Some a | _ => None end.

Definition traceOf {A} (r : res P A) : list event :=
  match r with
  | Ret _ _ t | Panics _ _ t | Aborts _ _ t | Blocks _ t | NoFuel _ t => t
  end.

(** The client state a run ends in. *)
Definition stateOf {A} (r : res P A) : Client P :=
  match r with
  | Ret _ c _ | Panics _ c _ | Aborts _ c _ | Blocks c _ | NoFuel c _ => c
  end.

(** The client after [n] successive calls of [incr]. *)
Definition afterIncr (n : N) (c : Client P) : Client P :=
  N.iter n (fun c => stateOf (incr c)) c.

(** What the [n]-th call of [incr] returns, counting from 1. *)
Definition nthIncr (n : N) (c : Client P) : option bytes :=
  valueOf (incr (afterIncr (N.pred n) c)).

End Observations.

(** A message asks for a receipt. *)
Definition wantsReceipt (m : Message string) : bool :=
  negb (String.length (Receipt m) =? 0)%nat && negb (String.eqb (Method m) MethodRecipet).

(** Along a trace, starting with the receipt ids [w] that have a waiter:
    every message handed to [Peer.Send] that asks for a receipt has its
    waiter in the wait map at that moment. *)
Fixpoint waiterRegistered (w : gset string) (t : list event) : bool :=
  match t with
  | [] => true
  | EvWaitSet k _ :: t => waiterRegistered ({[k]} ∪ w) t
  | EvWaitDel k :: t => waiterRegistered (w ∖ {[k]}) t
  | EvPeerSend m :: t =>
      (if wantsReceipt m then bool_decide (Receipt m ∈ w) else true)
      && waiterRegistered w t
  | _ :: t => waiterRegistered w t
  end.

(** Writes to [subs], [wait] and [seq]. *)
Definition mutation (e : event) : bool :=
  match e with
  | EvSeq _ | EvSubsSet _ | EvSubsDel _ | EvWaitSet _ _ | EvWaitDel _ => true
  | _ => false
  end.

(** Operations on the peer and on channels. *)
Definition io (e : event) : bool :=
  match e with
  | EvPeerSend _ | EvPeerRecv _ | EvPeerClose
  | EvTokenSend _ | EvTokenRecv _ | EvDone _ => true
  | _ => false
  end.

(** Along a trace, starting with the mutex [held] or not: every mutation
    happens with the mutex held and no I/O happens with it held. *)
Fixpoint lockDiscipline (held : bool) (t : list event) : bool :=
  match t with
  | [] => true
  | EvLock :: t => lockDiscipline true t
  | EvUnlock :: t => lockDiscipline false t
  | e :: t =>
      (if mutation e then held else true) && (if io e then negb held else true)
      && lockDiscipline held t
  end.

(** Events of a run that writes none of the guarded fields and hands
    nothing to the peer. *)
Definition quiet (e : event) : bool :=
  match e with
  | EvSeq _ | EvSubsSet _ | EvSubsDel _ | EvWaitSet _ _ | EvWaitDel _
  | EvPeerSend _ => false
  | _ => true
  end.

Section Bystanders.
Context {P : Type} `{Peer.Peer string P}.
Import client.

(** A computation that leaves [subs], [wait] and [seq] as they are and
    whose events are all [quiet], however it ends. *)
Definition bystander {A} (m : M P A) : Prop :=
  forall c,
    wait (stateOf (m c)) = wait c /\
    subs (stateOf (m c)) = subs c /\
    seq (stateOf (m c)) = seq c /\
    forallb quiet (traceOf (m c)) = true.

End Bystanders.

(** *** Concrete clients *)

(** A fresh client over a fresh socket peer. *)
Definition freshPeer : @conn.connPeer string := conn.Conn "srv" "".
Definition freshClient : client.Client (@conn.connPeer string) := client.New freshPeer.

(** A socket peer whose reader has handed over the frames [ms]. *)
Definition peerWith (ms : list (Message string)) : @conn.connPeer string :=
  conn.mk "srv" "" 0 make_chan (mkChan ms false) make_chan.

Definition errorFrame : Message string :=
  set_Body (set_Method (NewMessage "") MethodError) "oops".

Definition messageFrame (sub : string) : Message string :=
  mkMessage "" MethodMessage "7" sub "/topic/x" "" "" "" "" "" "" 0 "" "" (mkHeader [] 0) "hello".

Definition receiptFrame (id : string) : Message string :=
  set_Receipt (set_Method (NewMessage "") MethodRecipet) id.

(** A handler that panics with a string, and one that panics with an
    error. *)
Definition panicsWithString : Handler := fun _ => Some (AnyString "boom").
Definition panicsWithError : Handler := fun _ => Some (AnyError (Errorf "boom")).
Definition quietHandler : Handler := fun _ => None.

(** A connected client (listen task running) with [h] subscribed under
    "0" and the frames [ms] waiting on the peer. *)
Definition listeningClient (h : Handler) (ms : list (Message string))
  : client.Client (@conn.connPeer string) :=
  client.mkClient false (peerWith ms) {["0" := h]} ∅ [] 1 [] true.

(** The frames built by [Send("/q", body, WithReceipt())] and by
    [Nack("1", WithReceipt())] when the receipt id drawn is [r]. *)
Definition sendFrame (body : bytes) (r : Z) : Message string :=
  Apply (set_Body (set_Dest (set_Method (NewMessage "") MethodSend) "/q") body)
        [WithReceipt r].

Definition nackFrame (r : Z) : Message string :=
  Apply (set_ID (set_Method (NewMessage "") MethodNack) "1") [WithReceipt r].

(** A client on which one task waits in [Send] for receipt 42 (no listen
    task runs, so the call waits for ever) and another task has called
    [Disconnect] since. *)
Definition pendingClient : client.Client (@conn.connPeer string) :=
  stateOf (client.Disconnect 1
    (stateOf (client.Send 1 "/q" "a" [WithReceipt 42] freshClient))).

(** A client that has subscribed once, under the identifier "0", and
    whose peer has been closed by [Disconnect] since. *)
Definition subscribedClient : client.Client (@conn.connPeer string) :=
  stateOf (client.Disconnect 1
    (stateOf (client.Subscribe 1 "/topic/x" quietHandler [] freshClient))).

(** The client after [n] further calls of [Subscribe]. *)
Definition afterSubscribes (n : N) (c : client.Client (@conn.connPeer string))
  : client.Client (@conn.connPeer string) :=
  N.iter n (fun c => stateOf (client.Subscribe 1 "/topic/y" panicsWithError [] c)) c.

(** The frame built by [Subscribe] for the identifier [id]. *)
Definition subscribeFrame (id : bytes) (dest : string) (opts : list MessageOption)
  : Message string :=
  Apply (set_Dest (set_ID (set_Method (NewMessage "") MethodSubscribe) id) dest) opts.

(** A socket peer after [Close]. *)
Definition closedPeer : @conn.connPeer string :=
  conn.mk "srv" "" 0 (mkChan [] true) (mkChan [] true) (mkChan [] true).

(** The keys of [subs] are identifiers that [incr] has handed out, and
    the counter has not wrapped. *)
Definition idsBelowSeq {P} (c : client.Client P) : Prop :=
  (0 <= client.seq c < 2 ^ 63)%Z /\
  forall k, is_Some (client.subs c !! k) ->
    exists i, (0 <= i < client.seq c)%Z /\ k = AppendInt i.

(** ** The writer's side of the wire *)

(** The message case of the [select] of [writeFrom], which is also the body
    of the loop of [drain]: [writeTo(c.writer, msg); c.writer.WriteByte(0)],
    on the bytes [w] handed to [c.writer] so far. *)
Definition writeMessage (w : bytes) (msg : Message Z) : bytes :=
  w +:+ writeTo msg +:+ String "000" "".

(** The heart-beat case of that [select]: [c.writer.WriteByte(0)]. *)
Definition writeHeartbeat (w : bytes) : bytes := w +:+ String "000" "".

(** The cases of the [select] of [writeFrom] that write. *)
Inductive wake :=
| WakeMessage (msg : Message Z)
| WakeHeartbeat.

(** The bytes handed to [c.writer] by a run of the writer task in which
    the [select] took these cases, in this order. *)
Definition written (l : list wake) : bytes :=
  fold_left (fun w k => match k with
                        | WakeMessage msg => writeMessage w msg
                        | WakeHeartbeat => writeHeartbeat w
                        end) l "".

(** The messages among the cases, and the number of heart-beats. *)
Definition messagesOf (l : list wake) : list (Message Z) :=
  flat_map (fun k => match k with WakeMessage msg => [msg] | WakeHeartbeat => [] end) l.

Definition beatsOf (l : list wake) : nat :=
  length (flat_map (fun k => match k with WakeHeartbeat => [tt] | _ => [] end) l).

(** What arrives on a socket, cut at the NUL bytes: frames (no NUL, at
    least one byte) and lone NULs. *)
Inductive chunk :=
| Frame (f : bytes)
| Beat.

Definition chunkBytes (k : chunk) : bytes :=
  match k with
  | Frame f => f +:+ String "000" ""
  | Beat => String "000" ""
  end.

Definition streamOf (l : list chunk) : bytes :=
  fold_right (fun k s => chunkBytes k +:+ s) "" l.

Definition framesOf (l : list chunk) : list bytes :=
  flat_map (fun k => match k with Frame f => [f] | Beat => [] end) l.

Definition beatCount (l : list chunk) : nat :=
  length (flat_map (fun k => match k with Beat => [tt] | _ => [] end) l).

Definition goodChunk (k : chunk) : bool :=
  match k with
  | Frame f => no_nul f && negb (String.length f =? 0)%nat
  | Beat => true
  end.

(** No NUL byte in any field of a message that [writeTo] writes. *)
Definition nulFree (m : Message Z) : bool :=
  no_nul (Method m) && no_nul (Proto m) && no_nul (Dest m) && no_nul (User m) &&
  no_nul (Pass m) && no_nul (Ack m) && no_nul (Prefetch m) && no_nul (Persist m) &&
  no_nul (Retain m) && no_nul (Selector m) && no_nul (Receipt m) &&
  forallb (fun it => no_nul (name it) && no_nul (data it)) (items (Header m)) &&
  no_nul (Body m).

(** [Send] called for each message of a list in turn: the errors returned
    and the peer left. *)
Fixpoint sendAll {I} (c : @conn.connPeer I) (ms : list (Message I))
  : result (list (option error) * @conn.connPeer I) :=
  match ms with
  | [] => Ok ([], c)
  | m :: ms =>
      match conn.Send c m with
      | Panic v => Panic v
      | Ok (e, c') =>
          match sendAll c' ms with
          | Panic v => Panic v
          | Ok (es, c'') => Ok (e :: es, c'')
          end
      end
  end.

(** The chunk the writer puts on the wire for one of its cases. *)
Definition chunkOf (k : wake) : chunk :=
  match k with
  | WakeMessage msg => Frame (writeTo msg)
  | WakeHeartbeat => Beat
  end.

(** ** The reader task among the other tasks *)

(** [incoming] is made without capacity: the send [messages <- msg] of
    [readInto] is complete when the consumer receives, the reader waits in
    it until then, and it panics there when the channel is closed
    meanwhile.  Where the reader task is: before [ReadBytes], in the send
    of a message, returned, or dead of a panic. *)
Inductive readerAt {I : Type} :=
| AtRead
| AtSend (msg : Message I)
| Returned
| Dead (v : any).
Arguments readerAt : clear implicits.

(** Whose step comes next: the reader's, the consumer's (one receive
    [m, ok := <-c.peer.Receive()]) or that of another task calling
    [Close]. *)
Inductive turn := Reader | Consumer | Closer.

Section ReaderSteps.
Context {I : Type} (zero : I) (Parse : Message I -> bytes -> Message I).

(** The reader dies: the deferred [c.close()] runs, then the panic goes
    on. *)
Definition dies (v : any) (c : @conn.connPeer I) : readerAt I * @conn.connPeer I :=
  match conn.close c with
  | Ok (_, c', _) => (Dead v, c')
  | Panic _ => (Dead v, c)
  end.

(** One step.  The reader's step before [ReadBytes] is one pass of the loop
    of [readInto] up to the send (or the return, with the deferred
    [c.close()]); in the send it goes on waiting unless the channel is
    closed.  The consumer's step takes the message the reader is sending.
    The closer's step is [Close]. *)
Definition readIntoStep (st : readerAt I * @conn.connPeer I) (t : turn)
  : readerAt I * @conn.connPeer I :=
  let '(pc, c) := st in
  match t, pc with
  | Reader, AtRead =>
      let '(b, rest, err) := ReadBytes "000" (conn.rx c) in
      let c := conn.set_rx c rest in
      match err with
      | Some _ =>
          match conn.close c with
          | Ok (_, c', _) => (Returned, c')
          | Panic v => (Dead v, c)
          end
      | None =>
          if (String.length b =? 1)%nat
          then (AtRead, conn.set_beats c (S (conn.beats c)))
          else
            let msg := Parse (NewMessage zero) (dropLast b) in
            if closed (conn.done c) then (AtRead, c)
            else match chan_send (conn.incoming c) msg with
                 | Ok _ => (AtSend msg, c)
                 | Panic v => dies v c
                 end
      end
  | Reader, AtSend msg =>
      match chan_send (conn.incoming c) msg with
      | Ok _ => st
      | Panic v => dies v c
      end
  | Consumer, AtSend msg =>
      match chan_send (conn.incoming c) msg with
      | Ok ch => (AtRead, conn.set_incoming c ch)
      | Panic _ => st
      end
  | Closer, _ =>
      match conn.Close c with
      | Ok (_, c', _) => (pc, c')
      | Panic _ => st
      end
  | _, _ => st
  end.

Definition readIntoRun (sched : list turn) (st : readerAt I * @conn.connPeer I)
  : readerAt I * @conn.connPeer I :=
  fold_left readIntoStep sched st.

End ReaderSteps.

(** The schedule in which the consumer is ready after each step of the
    reader and no other task closes the peer. *)
Fixpoint served (n : nat) : list turn :=
  match n with
  | O => []
  | S n => Reader :: Consumer :: served n
  end.

(** ** Further observations on the client *)

Section MoreObservations.
Context {P : Type} `{Peer.Peer string P}.
Import client.

(** A computation that, started with the mutex free, leaves it free,
    however it ends. *)
Definition mutexSafe {A} (m : M P A) : Prop :=
  forall c, mu c = false -> mu (stateOf (m c)) = false.

(** The calls a program makes on a client, and the steps of its listen
    task. *)
Inductive call :=
| CallSend (dest : string) (data : bytes) (opts : list (@MessageOption string))
| CallSubscribe (dest : string) (handler : Handler) (opts : list (@MessageOption string))
| CallUnsubscribe (id : bytes) (opts : list (@MessageOption string))
| CallAck (id : bytes) (opts : list (@MessageOption string))
| CallNack (id : bytes) (opts : list (@MessageOption string))
| CallListenStep.

(** The client after a call, however the call ends. *)
Definition afterCall (fuel : nat) (k : call) (c : Client P) : Client P :=
  match k with
  | CallSend dest data opts => stateOf (Send fuel dest data opts c)
  | CallSubscribe dest handler opts => stateOf (Subscribe fuel dest handler opts c)
  | CallUnsubscribe id opts => stateOf (Unsubscribe fuel id opts c)
  | CallAck id opts => stateOf (Ack fuel id opts c)
  | CallNack id opts => stateOf (Nack id opts c)
  | CallListenStep => stateOf (listenStep c)
  end.

Definition afterCalls (fuel : nat) (l : list call) (c : Client P) : Client P :=
  fold_left (fun c k => afterCall fuel k c) l c.

End MoreObservations.

(** The frame built by [Connect], and the one built by [Disconnect]. *)
Definition connectFrame (opts : list MessageOption) : Message string :=
  Apply (set_Method (set_Proto (NewMessage "") STOMP) MethodStomp) opts.

Definition disconnectFrame : Message string :=
  set_Method (NewMessage "") MethodDisconnect.

(** The frames built by [Send] and by [Unsubscribe]. *)
Definition sendFrameOf (dest : string) (data : bytes) (opts : list MessageOption)
  : Message string :=
  Apply (set_Body (set_Dest (set_Method (NewMessage "") MethodSend) dest) data) opts.

Definition unsubscribeFrame (id : bytes) (opts : list MessageOption) : Message string :=
  Apply (set_ID (set_Method (NewMessage "") MethodUnsubscribe) id) opts.

(** * Properties *)

(** ** Strings and decimal texts *)

Lemma string_app_cons (a : ascii) (s1 s2 : string) :
  String a s1 +:+ s2 = String a (s1 +:+ s2).
Proof. reflexivity. Qed.

Lemma string_app_nil (s : string) : "" +:+ s = s.
Proof. reflexivity. Qed.

Lemma string_length_app (s1 s2 : string) :
  String.length (s1 +:+ s2) = Nat.add (String.length s1) (String.length s2).
Proof.
  induction s1 as [|a s1 IH]; [reflexivity |].
  rewrite string_app_cons. simpl. now rewrite IH.
Qed.

Lemma string_app_assoc (s1 s2 s3 : string) :
  (s1 +:+ s2) +:+ s3 = s1 +:+ (s2 +:+ s3).
Proof.
  induction s1 as [|a s1 IH]; [reflexivity |].
  rewrite !string_app_cons. now rewrite IH.
Qed.

Lemma to_int_not_nil (z : Z) :
  Z.to_int z <> Decimal.Pos Decimal.Nil /\ Z.to_int z <> Decimal.Neg Decimal.Nil.
Proof.
  destruct z as [|p|p]; simpl; split; try discriminate;
    intros E; injection E as E; now apply Unsigned.to_uint_nonnil in E.
Qed.

(** The decimal text determines the number. *)
Lemma AppendInt_inj (i j : Z) : AppendInt i = AppendInt j -> i = j.
Proof.
  unfold AppendInt. intros E.
  apply DecimalZ.to_int_inj.
  destruct (to_int_not_nil i) as [Hi1 Hi2], (to_int_not_nil j) as [Hj1 Hj2].
  pose proof (NilZero.isi _ Hi1 Hi2) as Ei.
  pose proof (NilZero.isi _ Hj1 Hj2) as Ej.
  rewrite E in Ei. rewrite Ei in Ej. now injection Ej.
Qed.

Lemma AppendInt_nonempty (i : Z) : AppendInt i <> "".
Proof.
  unfold AppendInt. destruct (to_int_not_nil i) as [H1 H2].
  intros E. pose proof (NilZero.isi _ H1 H2) as Ei. rewrite E in Ei. discriminate.
Qed.

Lemma wrap64_small (z : Z) : (- 2 ^ 63 <= z < 2 ^ 63)%Z -> wrap64 z = z.
Proof. intros Hz. unfold wrap64. rewrite Z.mod_small; lia. Qed.

Lemma wrap64_range (z : Z) : (- 2 ^ 63 <= wrap64 z < 2 ^ 63)%Z.
Proof.
  unfold wrap64. pose proof (Z.mod_pos_bound (z + 2 ^ 63) (2 ^ 64)). lia.
Qed.

Lemma wrap64_succ (z : Z) : wrap64 (wrap64 z + 1) = wrap64 (z + 1).
Proof.
  unfold wrap64.
  replace ((z + 2 ^ 63) mod 2 ^ 64 - 2 ^ 63 + 1 + 2 ^ 63)%Z
    with ((z + 2 ^ 63) mod 2 ^ 64 + 1)%Z by lia.
  replace (z + 1 + 2 ^ 63)%Z with ((z + 2 ^ 63) + 1)%Z by lia.
  f_equal. now rewrite Zplus_mod_idemp_l.
Qed.

(** ** The serializer *)

Lemma includeReceiptHeader_true {I} (m : Message I) :
  includeReceiptHeader m = true <-> Receipt m <> "" /\ Method m <> MethodRecipet.
Proof.
  unfold includeReceiptHeader. rewrite andb_true_iff, !negb_true_iff.
  rewrite Nat.eqb_neq, String.eqb_neq.
  split; intros [H1 H2]; split; auto.
  - intros E. rewrite E in H1. now apply H1.
  - destruct (Receipt m); [now elim H1 | discriminate].
Qed.

(** The loop over the items writes the first [itemc] of them, in order. *)
Lemma writeItems_take (c i : Z) (l : list item) :
  (0 <= i <= c)%Z ->
  writeItems c i l = headerLines (take (Z.to_nat (c - i)) l).
Proof.
  revert i. induction l as [|it l IH]; intros i Hi; simpl.
  - now rewrite take_nil.
  - destruct (Z.eqb_spec c i) as [->|Hne].
    + now rewrite Z.sub_diag.
    + replace (Z.to_nat (c - i)) with (S (Z.to_nat (c - (i + 1)))) by lia.
      simpl. now rewrite IH by lia.
Qed.

(** A frame that asks for a receipt: the line written after the headers of
    the method is named by [HeaderReceiptID]. *)
Lemma writeTo_with_receipt (m : Message Z) :
  Receipt m <> "" -> Method m <> MethodRecipet -> (0 <= itemc (Header m))%Z ->
  writeTo m =
    Method m +:+ newline +:+ writeMethodHeaders m +:+
    (HeaderReceiptID +:+ separator +:+ Receipt m +:+ newline) +:+
    headerLines (take (Z.to_nat (itemc (Header m))) (items (Header m))) +:+
    newline +:+ Body m.
Proof.
  intros HR HM Hc. unfold writeTo.
  rewrite (proj2 (includeReceiptHeader_true m)) by auto.
  rewrite writeItems_take by lia. now rewrite Z.sub_0_r.
Qed.

(** A RECEIPT frame carries its [receipt-id] line once. *)
Lemma writeTo_RECEIPT (m : Message Z) :
  Method m = MethodRecipet -> (0 <= itemc (Header m))%Z ->
  writeTo m =
    MethodRecipet +:+ newline +:+
    (HeaderReceiptID +:+ separator +:+ Receipt m +:+ newline) +:+
    headerLines (take (Z.to_nat (itemc (Header m))) (items (Header m))) +:+
    newline +:+ Body m.
Proof.
  intros HM Hc. unfold writeTo, includeReceiptHeader, writeMethodHeaders.
  rewrite HM. rewrite andb_false_r.
  rewrite writeItems_take by lia. now rewrite Z.sub_0_r.
Qed.

(** C5: the serializer is to write the line [receipt:<Receipt>] for a frame
    that asks for a receipt.  For the SEND frame with receipt id 42 it
    writes [receipt-id:42] instead: both places of [writeTo] use the name
    [HeaderReceiptID]. *)
Theorem writeTo_receipt_line_named_receipt_id :
  writeTo sendWithReceipt =
    "SEND" +:+ newline +:+ "destination:/q" +:+ newline +:+
    "receipt-id:42" +:+ newline +:+ newline +:+ "hello"
  /\ writeTo sendWithReceipt <>
    "SEND" +:+ newline +:+ "destination:/q" +:+ newline +:+
    "receipt:42" +:+ newline +:+ newline +:+ "hello".
Proof. split; [reflexivity | vm_compute; discriminate]. Qed.

(** ** The socket peer *)

Section ConnFacts.
Context {I : Type} (zero : I) (Parse : Message I -> bytes -> Message I).
Implicit Types c : @conn.connPeer I.

Lemma Conn_closed_together (addr : string) (input : bytes) :
  closed_together (@conn.Conn I addr input).
Proof. split; reflexivity. Qed.

Lemma closedAgain_closed c (k : nat) :
  closed (conn.done c) = true -> closedAgain k c = c.
Proof.
  intros Hd. induction k as [|k IH]; simpl; [reflexivity |].
  unfold conn.Close, conn.close. now rewrite Hd.
Qed.

(** C7: on a peer that is not closed, [Close] closes [done], [incoming]
    and [outgoing], in this order and each once, and succeeds; every later
    [Close] returns [io.EOF], closes nothing and does not panic; every
    later [Send] returns [io.EOF] and leaves [outgoing] as it was. *)
Theorem Close_idempotent c :
  closed_together c -> closed (conn.done c) = false ->
  exists c',
    conn.Close c = Ok (None, c', [ChDone; ChIncoming; ChOutgoing]) /\
    closed (conn.done c') = true /\
    closed (conn.incoming c') = true /\
    closed (conn.outgoing c') = true /\
    buf (conn.incoming c') = buf (conn.incoming c) /\
    buf (conn.outgoing c') = buf (conn.outgoing c) /\
    (forall k : nat, conn.Close (closedAgain k c') = Ok (Some EOF, c', [])) /\
    (forall (k : nat) (m : Message I),
        conn.Send (closedAgain k c') m = Ok (Some EOF, c')).
Proof.
  intros [Hi Ho] Hd. rewrite Hd in Hi, Ho.
  unfold conn.Close, conn.close, chan_close. rewrite Hd, Hi, Ho.
  eexists. split; [reflexivity |]. simpl.
  repeat split; try reflexivity.
  - intros k. rewrite closedAgain_closed by reflexivity. reflexivity.
  - intros k m. rewrite closedAgain_closed by reflexivity. reflexivity.
Qed.

(** *** The reader task *)

Lemma ReadBytes_frame (f rest : bytes) :
  no_nul f = true ->
  ReadBytes "000" (f +:+ String "000" rest) = (f +:+ String "000" "", rest, None).
Proof.
  induction f as [|a f IH]; intros Hf; [reflexivity |].
  simpl in Hf. apply andb_true_iff in Hf as [Ha Hf].
  rewrite !string_app_cons. simpl.
  apply negb_true_iff in Ha. rewrite Ha. now rewrite IH.
Qed.

Lemma ReadBytes_shrinks (d : ascii) (s b rest : bytes) :
  ReadBytes d s = (b, rest, None) -> (String.length rest < String.length s)%nat.
Proof.
  revert b rest. induction s as [|a s IH]; intros b rest; simpl; [discriminate |].
  destruct (Ascii.eqb a d).
  - intros E. injection E as _ <-. lia.
  - destruct (ReadBytes d s) as [[b' r'] e'] eqn:E. intros E'.
    injection E' as _ <- ->. specialize (IH _ _ eq_refl). lia.
Qed.

Lemma dropLast_snoc (f : bytes) (a : ascii) : dropLast (f +:+ String a "") = f.
Proof.
  induction f as [|b f IH]; [reflexivity |].
  rewrite string_app_cons. simpl. rewrite IH.
  destruct f; reflexivity.
Qed.

Lemma frame_not_heartbeat (f : bytes) (a : ascii) :
  f <> "" -> (String.length (f +:+ String a "") =? 1)%nat = false.
Proof.
  intros Hf. rewrite string_length_app. apply Nat.eqb_neq.
  destruct f; [now elim Hf | simpl; lia].
Qed.

(** One pass of the loop on a frame: parsed and handed to [incoming]. *)
Lemma readLoop_frame (fuel : nat) c (f rest : bytes) :
  no_nul f = true -> f <> "" ->
  closed (conn.done c) = false -> closed (conn.incoming c) = false ->
  conn.rx c = f +:+ String "000" rest ->
  conn.readLoop zero Parse (S fuel) c =
  conn.readLoop zero Parse fuel
    (conn.set_incoming (conn.set_rx c rest)
       (mkChan (buf (conn.incoming c) ++ [Parse (NewMessage zero) f]) false)).
Proof.
  intros Hf Hne Hd Hi Hrx. simpl. rewrite Hrx, ReadBytes_frame by assumption.
  rewrite frame_not_heartbeat by assumption. rewrite dropLast_snoc.
  simpl. rewrite Hd. unfold chan_send. simpl. rewrite Hi. reflexivity.
Qed.

(** The loop ends within [length rx + 1] passes, and more fuel changes
    nothing. *)
Lemma readLoop_fuel (fuel fuel' : nat) c :
  (String.length (conn.rx c) < fuel)%nat -> (String.length (conn.rx c) < fuel')%nat ->
  conn.readLoop zero Parse fuel c = conn.readLoop zero Parse fuel' c /\
  conn.readLoop zero Parse fuel c <> None.
Proof.
  revert fuel' c. induction fuel as [|fuel IH]; intros fuel' c H1 H2; [lia |].
  destruct fuel' as [|fuel']; [lia |]. simpl.
  destruct (ReadBytes "000" (conn.rx c)) as [[b rest] err] eqn:E.
  destruct err as [e|]; [split; [reflexivity | discriminate] |].
  apply ReadBytes_shrinks in E.
  destruct (String.length b =? 1)%nat.
  - apply IH; simpl; lia.
  - simpl. destruct (closed (conn.done c)).
    + apply IH; simpl; lia.
    + destruct (chan_send _ _); [apply IH; simpl; lia |].
      split; [reflexivity | discriminate].
Qed.

(** The loop only appends to [incoming]; it leaves the closed flags alone
    and, on a peer whose channels are closed together, does not panic. *)
Lemma readLoop_appends (fuel : nat) c (r : result (@conn.connPeer I)) :
  closed_together c ->
  conn.readLoop zero Parse fuel c = Some r ->
  exists c' tail,
    r = Ok c' /\
    buf (conn.incoming c') = (buf (conn.incoming c) ++ tail)%list /\
    closed (conn.incoming c') = closed (conn.incoming c) /\
    conn.done c' = conn.done c /\ conn.outgoing c' = conn.outgoing c.
Proof.
  revert c. induction fuel as [|fuel IH]; intros c Hc; simpl; [discriminate |].
  destruct (ReadBytes "000" (conn.rx c)) as [[b rest] err].
  destruct err as [e|].
  - intros E. injection E as <-. exists (conn.set_rx c rest), [].
    simpl. rewrite app_nil_r. repeat split; reflexivity.
  - destruct (String.length b =? 1)%nat.
    + intros E. apply IH in E; [| exact Hc]. exact E.
    + simpl. destruct Hc as [Hi Ho].
      destruct (closed (conn.done c)) eqn:Hd.
      * intros E. apply IH in E; [| split; simpl; congruence]. exact E.
      * unfold chan_send. rewrite Hi. intros E.
        apply IH in E; [| split; simpl; congruence].
        destruct E as (c' & tail & -> & Hb & Hcl & Hdn & Hout).
        simpl in *. eexists c', (_ :: tail).
        repeat split; try assumption; try congruence.
        rewrite Hb, <- app_assoc. reflexivity.
Qed.

(** [readInto] on a frame followed by [rest]: the frame is parsed and
    handed over, then the rest is read. *)
Lemma readInto_frame c (f rest : bytes) :
  no_nul f = true -> f <> "" ->
  closed (conn.done c) = false -> closed (conn.incoming c) = false ->
  conn.readInto zero Parse (conn.set_rx c (f +:+ String "000" rest)) =
  conn.readInto zero Parse
    (conn.set_incoming (conn.set_rx c rest)
       (mkChan (buf (conn.incoming c) ++ [Parse (NewMessage zero) f]) false)).
Proof.
  intros Hf Hne Hd Hi. unfold conn.readInto.
  rewrite (readLoop_frame _ _ f rest) by (assumption || reflexivity).
  simpl.
  match goal with
  | |- context [conn.readLoop _ _ ?n ?c0] =>
      destruct (readLoop_fuel n (S (String.length rest)) c0) as [-> _]
  end.
  - simpl. rewrite string_length_app. simpl. lia.
  - simpl. lia.
  - reflexivity.
Qed.

(** Two frames on a fresh peer: both are parsed and handed over. *)
Lemma readInto_two_frames (addr : string) (f : bytes) :
  no_nul f = true -> f <> "" ->
  exists c',
    conn.readInto zero Parse
      (conn.Conn addr (f +:+ String "000" ("ACK" +:+ String "000" ""))) = Some (Ok c') /\
    buf (conn.incoming c') = [Parse (NewMessage zero) f; Parse (NewMessage zero) "ACK"].
Proof.
  intros Hf Hne.
  change (conn.Conn addr (f +:+ String "000" ("ACK" +:+ String "000" "")))
    with (conn.set_rx (@conn.Conn I addr "") (f +:+ String "000" ("ACK" +:+ String "000" ""))).
  rewrite readInto_frame by (assumption || reflexivity).
  eexists. split; reflexivity.
Qed.

End ConnFacts.

Lemma no_nul_app (s1 s2 : bytes) :
  no_nul s1 = true -> no_nul s2 = true -> no_nul (s1 +:+ s2) = true.
Proof.
  intros H1 H2. induction s1 as [|a s1 IH]; [exact H2 |].
  rewrite string_app_cons. simpl in *.
  apply andb_true_iff in H1 as [Ha H1]. rewrite Ha. simpl. now apply IH.
Qed.

Lemma no_nul_doubled (n : nat) (s : bytes) :
  no_nul s = true -> no_nul (doubled n s) = true.
Proof.
  revert s. induction n as [|n IH]; intros s Hs; simpl; [exact Hs |].
  apply IH. now apply no_nul_app.
Qed.

Lemma doubled_length (n : nat) (s : bytes) :
  Z.of_nat (String.length (doubled n s)) = (2 ^ Z.of_nat n * Z.of_nat (String.length s))%Z.
Proof.
  revert s. induction n as [|n IH]; intros s.
  - simpl doubled. change (Z.of_nat 0) with 0%Z. lia.
  - simpl doubled. rewrite IH, string_length_app, Nat2Z.inj_add, Nat2Z.inj_succ.
    rewrite Z.pow_succ_r by lia. lia.
Qed.

Lemma padded_length (n : nat) :
  Z.of_nat (String.length (String "a" (doubled n "a"))) = (2 ^ Z.of_nat n + 1)%Z.
Proof.
  pose proof (doubled_length n "a") as E. simpl String.length in *. lia.
Qed.

Lemma padded_no_nul (n : nat) : no_nul (String "a" (doubled n "a")) = true.
Proof. simpl. now apply no_nul_doubled. Qed.

Lemma oversized_length : Z.of_nat (String.length oversized) = 1048577%Z.
Proof. unfold oversized. rewrite padded_length. vm_compute. reflexivity. Qed.

Lemma oversized_no_nul : no_nul oversized = true.
Proof. unfold oversized. apply padded_no_nul. Qed.

(** C6, as claimed, fails: a frame of 1048577 bytes, over the 1 MiB of
    [bufferLimit], is parsed and handed to [incoming] whatever the parser,
    and the reader goes on to the next frame. *)
Lemma oversized_frame_is_enqueued :
  (bufferLimit < Z.of_nat (String.length oversized))%Z /\
  forall Parse : Message Z -> bytes -> Message Z,
  exists c',
    conn.readInto 0%Z Parse
      (conn.Conn "srv" (oversized +:+ String "000" ("ACK" +:+ String "000" "")))
      = Some (Ok c') /\
    buf (conn.incoming c') =
      [Parse (NewMessage 0%Z) oversized; Parse (NewMessage 0%Z) "ACK"].
Proof.
  split.
  - rewrite oversized_length. vm_compute. reflexivity.
  - intros Parse. apply readInto_two_frames.
    + exact oversized_no_nul.
    + unfold oversized. discriminate.
Qed.

Lemma Close_idempotent_witness :
  closed_together (@conn.Conn string "srv" "") /\
  closed (conn.done (@conn.Conn string "srv" "")) = false /\
  exists c',
    conn.Close (@conn.Conn string "srv" "") = Ok (None, c', [ChDone; ChIncoming; ChOutgoing]) /\
    closed (conn.done c') = true /\
    closed (conn.incoming c') = true /\
    closed (conn.outgoing c') = true /\
    buf (conn.incoming c') = buf (conn.incoming (@conn.Conn string "srv" "")) /\
    buf (conn.outgoing c') = buf (conn.outgoing (@conn.Conn string "srv" "")) /\
    (forall k : nat, conn.Close (closedAgain k c') = Ok (Some EOF, c', [])) /\
    (forall (k : nat) (m : Message string),
        conn.Send (closedAgain k c') m = Ok (Some EOF, c')).
Proof.
  split; [split; reflexivity |]. split; [reflexivity |].
  apply (Close_idempotent (@conn.Conn string "srv" "")); [split; reflexivity | reflexivity].
Defined.

(** ** The client *)

Section ClientFacts.
Context {P : Type} `{Peer.Peer string P}.
Import client.
Implicit Types c : Client P.

Lemma set_mu_id c : mu c = false -> set_mu (set_mu c true) false = c.
Proof. destruct c; simpl; intros ->; reflexivity. Qed.

(** *** incr *)

Lemma incr_run c :
  mu c = false ->
  incr c = Ret (AppendInt (seq c)) (set_seq c (wrap64 (seq c + 1)))
               [EvLock; EvSeq (wrap64 (seq c + 1)); EvUnlock].
Proof. destruct c; simpl; intros ->; reflexivity. Qed.

Lemma afterIncr_New (p : P) (n : N) :
  afterIncr n (New p) = set_seq (New p) (wrap64 (Z.of_N n)).
Proof.
  unfold afterIncr. induction n as [|n IH] using N.peano_ind; [reflexivity |].
  rewrite N.iter_succ, IH, incr_run by reflexivity.
  simpl. unfold set_seq. simpl. rewrite wrap64_succ.
  now rewrite N2Z.inj_succ.
Qed.

Lemma nthIncr_New (p : P) (n : N) :
  (1 <= n)%N -> nthIncr n (New p) = Some (AppendInt (wrap64 (Z.of_N n - 1))).
Proof.
  intros Hn. unfold nthIncr. rewrite afterIncr_New, incr_run by reflexivity.
  simpl. do 3 f_equal. lia.
Qed.

Lemma wrap64_inj (a b : Z) :
  (0 <= a < 2 ^ 64)%Z -> (0 <= b < 2 ^ 64)%Z -> wrap64 a = wrap64 b -> a = b.
Proof.
  unfold wrap64. intros Ha Hb E.
  assert (E' : ((a + 2 ^ 63) mod 2 ^ 64 = (b + 2 ^ 63) mod 2 ^ 64)%Z) by lia.
  destruct (Z_lt_le_dec a (2 ^ 63)), (Z_lt_le_dec b (2 ^ 63)).
  - rewrite !Z.mod_small in E' by lia. lia.
  - rewrite (Z.mod_small (a + _)) in E' by lia.
    replace (b + 2 ^ 63)%Z with ((b - 2 ^ 63) + 1 * 2 ^ 64)%Z in E' by lia.
    rewrite Z_mod_plus_full, Z.mod_small in E' by lia. lia.
  - rewrite (Z.mod_small (b + _)) in E' by lia.
    replace (a + 2 ^ 63)%Z with ((a - 2 ^ 63) + 1 * 2 ^ 64)%Z in E' by lia.
    rewrite Z_mod_plus_full, Z.mod_small in E' by lia. lia.
  - replace (a + 2 ^ 63)%Z with ((a - 2 ^ 63) + 1 * 2 ^ 64)%Z in E' by lia.
    replace (b + 2 ^ 63)%Z with ((b - 2 ^ 63) + 1 * 2 ^ 64)%Z in E' by lia.
    rewrite !Z_mod_plus_full, !Z.mod_small in E' by lia. lia.
Qed.

(** C8, as the code has it: on a fresh client the [n]-th call of [incr]
    returns the decimal text of [n - 1] for every [n] from 1 to 2^63; ten
    successive calls yield "0" to "9" in order; and the identifiers
    returned by the first 2^64 calls are pairwise distinct.  (The counter
    is an [int64]: it wraps after 2^63 calls.) *)
Theorem incr_identifiers (p : P) :
  (forall n : N, (1 <= n <= 2 ^ 63)%N ->
     nthIncr n (New p) = Some (AppendInt (Z.of_N n - 1))) /\
  map (fun n => nthIncr n (New p)) [1; 2; 3; 4; 5; 6; 7; 8; 9; 10]%N =
    map Some ["0"; "1"; "2"; "3"; "4"; "5"; "6"; "7"; "8"; "9"] /\
  (forall i j : N, (1 <= i)%N -> (i < j)%N -> (j <= 2 ^ 64)%N ->
     nthIncr i (New p) <> nthIncr j (New p)).
Proof.
  split; [| split].
  - intros n Hn. rewrite nthIncr_New by lia. rewrite wrap64_small; [reflexivity |].
    lia.
  - reflexivity.
  - intros i j Hi Hij Hj. rewrite !nthIncr_New by lia. intros E.
    injection E as E. apply AppendInt_inj, wrap64_inj in E; lia.
Qed.

End ClientFacts.

Lemma incr_identifiers_witness :
  (1 <= 3 <= 2 ^ 63)%N /\
  nthIncr 3 freshClient = Some (AppendInt (Z.of_N 3 - 1)) /\
  ((1 <= 2)%N /\ (2 < 5)%N /\ (5 <= 2 ^ 64)%N) /\
  nthIncr 2 freshClient <> nthIncr 5 freshClient.
Proof.
  split; [lia |]. split.
  - apply (proj1 (incr_identifiers freshPeer) 3%N). lia.
  - split; [lia |].
    apply (proj2 (proj2 (incr_identifiers freshPeer)) 2%N 5%N); lia.
Defined.

(** C8, as claimed, fails past 2^63 calls: call number 2^63 + 1 returns
    the text of -2^63, not of 2^63, and call number 2^64 + 1 returns "0"
    again, as the first call did. *)
Lemma incr_wraps_around :
  nthIncr 9223372036854775809 freshClient = Some "-9223372036854775808" /\
  nthIncr 9223372036854775809 freshClient
    <> Some (AppendInt (Z.of_N 9223372036854775809 - 1)) /\
  nthIncr 18446744073709551617 freshClient = nthIncr 1 freshClient.
Proof.
  unfold freshClient. rewrite !nthIncr_New by lia.
  split; [| split]; vm_compute; [reflexivity | discriminate | reflexivity].
Qed.

(** *** The listen task is a bystander of the maps and of the counter *)

Section ListenFacts.
Context {P : Type} `{Peer.Peer string P}.
Import client.
Implicit Types c : Client P.

Create HintDb bystander.

Lemma bystander_ret {A} (a : A) : bystander (P := P) (ret a).
Proof. intros c. repeat split. Qed.

Lemma bystander_bind {A B} (m : M P A) (f : A -> M P B) :
  bystander m -> (forall a, bystander (f a)) -> bystander (bind m f).
Proof.
  intros Hm Hf c. unfold bind. specialize (Hm c).
  destruct (m c) as [a c1 t1|v c1 t1|v c1 t1|c1 t1|c1 t1]; simpl in *; try exact Hm.
  specialize (Hf a c1). destruct Hm as (Hw & Hs & Hq & Ht).
  destruct (f a c1) as [b c2 t2|v c2 t2|v c2 t2|c2 t2|c2 t2]; simpl in *;
    rewrite ?forallb_app, ?Ht; repeat split; try tauto; try congruence;
    destruct Hf as (Hw' & Hs' & Hq' & Ht'); congruence.
Qed.

Lemma bystander_recovering {A} (h : any -> M P A) (body : M P A) :
  bystander body -> (forall v, bystander (h v)) -> bystander (recovering h body).
Proof.
  intros Hm Hh c. unfold recovering. specialize (Hm c).
  destruct (body c) as [a c1 t1|v c1 t1|v c1 t1|c1 t1|c1 t1]; simpl in *; try exact Hm.
  specialize (Hh v c1). destruct Hm as (Hw & Hs & Hq & Ht).
  destruct (h v c1) as [b c2 t2|v' c2 t2|v' c2 t2|c2 t2|c2 t2]; simpl in *;
    rewrite ?forallb_app, ?Ht; repeat split; try tauto; try congruence;
    destruct Hh as (Hw' & Hs' & Hq' & Ht'); congruence.
Qed.

Ltac bystander_prim :=
  let c := fresh "c" in
  intros c; cbv beta delta [Lock Unlock log release peerReceive peerClose doneSend
                            tokenSend tokenRecv stopListening panic];
  repeat match goal with
         | |- context [match ?x with _ => _ end] => destruct x
         end;
  simpl; repeat split.

Lemma bystander_Lock : bystander (P := P) Lock.
Proof. bystander_prim. Qed.
Lemma bystander_Unlock : bystander (P := P) Unlock.
Proof. bystander_prim. Qed.
Lemma bystander_log l fmt arg : bystander (P := P) (log l fmt arg).
Proof. bystander_prim. Qed.
Lemma bystander_peerReceive : bystander peerReceive.
Proof. bystander_prim. Qed.
Lemma bystander_doneSend e : bystander (P := P) (doneSend e).
Proof. bystander_prim. Qed.
Lemma bystander_tokenSend ch : bystander (P := P) (tokenSend ch).
Proof. bystander_prim. Qed.
Lemma bystander_tokenRecv ch : bystander (P := P) (tokenRecv ch).
Proof. bystander_prim. Qed.
Lemma bystander_stopListening : bystander (P := P) stopListening.
Proof. bystander_prim. Qed.
Lemma bystander_panic {A} v : bystander (P := P) (@panic P A v).
Proof. bystander_prim. Qed.

Hint Resolve bystander_ret bystander_Lock bystander_Unlock bystander_log
  bystander_peerReceive bystander_doneSend bystander_tokenSend bystander_tokenRecv
  bystander_stopListening bystander_panic : bystander.

Ltac bystander_step :=
  first [ solve [auto with bystander]
        | apply bystander_bind; [| intros ?]
        | apply bystander_recovering; [| intros ?]
        | match goal with
          | |- bystander (match ?x with _ => _ end) => destruct x
          | |- bystander (if ?x then _ else _) => destruct x
          end ].

Lemma bystander_handleReceipt m : bystander (handleReceipt (P := P) m).
Proof.
  unfold handleReceipt. repeat bystander_step.
Qed.

Lemma bystander_handleMessage m : bystander (handleMessage (P := P) m).
Proof.
  unfold handleMessage. repeat bystander_step.
  intros c.
  match goal with |- context [match ?x with _ => _ end] => destruct x end;
    repeat split.
Qed.

Hint Resolve bystander_handleReceipt bystander_handleMessage : bystander.

Lemma bystander_listenIter : bystander listenIter.
Proof. unfold listenIter. repeat bystander_step. Qed.

Lemma bystander_listenRecover r : bystander (P := P) (listenRecover r).
Proof. unfold listenRecover. repeat bystander_step. Qed.

Hint Resolve bystander_listenIter bystander_listenRecover : bystander.

Lemma bystander_listenStep : bystander listenStep.
Proof. unfold listenStep. repeat bystander_step. Qed.

Lemma bystander_otherTask {A} (m : M P A) : bystander m -> bystander (otherTask m).
Proof.
  intros Hm c. unfold otherTask. specialize (Hm c).
  destruct (m c); exact Hm.
Qed.

Lemma bystander_await fuel ch : bystander (await fuel ch).
Proof.
  induction fuel as [|fuel IH]; simpl.
  - apply bystander_bind; [auto with bystander |].
    intros [|]; [auto with bystander |].
    intros c. destruct (listening c); repeat split.
  - apply bystander_bind; [auto with bystander |].
    intros [|]; [auto with bystander |].
    intros c. destruct (listening c).
    + apply bystander_bind;
        [apply bystander_otherTask, bystander_listenStep | intros _; exact IH].
    + repeat split.
Qed.

End ListenFacts.

(** *** Runs on concrete clients *)

(** C1: every frame that asks for a receipt is to have its waiter in the
    wait map when it is handed to [Peer.Send].  [Nack] with a receipt
    option hands its frame to the peer directly: no waiter is registered,
    before or after. *)
Theorem Nack_sends_without_waiter :
  exists c',
    client.Nack "1" [WithReceipt 42] freshClient = client.Ret None c' [EvPeerSend (nackFrame 42)] /\
    wantsReceipt (nackFrame 42) = true /\
    client.wait freshClient !! Receipt (nackFrame 42) = None /\
    client.wait c' !! Receipt (nackFrame 42) = None /\
    waiterRegistered (dom (client.wait freshClient))
      (traceOf (client.Nack "1" [WithReceipt 42] freshClient)) = false.
Proof. eexists. repeat split; vm_compute; reflexivity. Qed.

(** C4: a handler panic is to reach [Done()] whatever the type of the
    panic value.  With a handler that panics with a string the deferred
    function of [listen] panics in turn, on the type assertion, and nothing
    is delivered on [done]; a panic with an [error] value is delivered. *)
Theorem listen_panics_on_non_error_panic_value :
  (exists c' t,
     client.listen 2 (listeningClient panicsWithString [messageFrame "0"]) =
       client.Panics
         (AnyError (RuntimeError "interface conversion: interface {} is not error")) c' t /\
     client.Done c' = [] /\
     forall e, ~ In (EvDone e) t) /\
  (exists c' t,
     client.listen 2 (listeningClient panicsWithError [messageFrame "0"]) =
       client.Ret tt c' t /\
     client.Done c' = [Errorf "boom"]).
Proof.
  split.
  - eexists _, _. split; [vm_compute; reflexivity |]. split; [reflexivity |].
    intros e Hin. simpl in Hin. intuition discriminate.
  - eexists _, _. split; [vm_compute; reflexivity | reflexivity].
Qed.

(** C9: every write to [subs], [wait] and [seq] is to happen with the
    mutex held.  A [Send] with a receipt option, answered by its RECEIPT
    frame, writes the wait map twice (the registration and the deferred
    removal, under the receipt id that the message holds by then) and never
    takes the mutex for it; the listen task reads the same map under the
    mutex.  A [Subscribe] keeps the discipline. *)
Theorem sendMessage_writes_wait_without_mutex :
  traceOf (client.Send 1 "/q" "hello" [WithReceipt 42]
             (listeningClient quietHandler [receiptFrame "42"])) =
    [EvWaitSet "42" 0; EvPeerSend (sendFrame "hello" 42);
     EvPeerRecv (Some (receiptFrame "42")); EvLock; EvUnlock;
     EvTokenSend 0; EvTokenRecv 0; EvWaitDel ""] /\
  lockDiscipline false
    (traceOf (client.Send 1 "/q" "hello" [WithReceipt 42]
                (listeningClient quietHandler [receiptFrame "42"]))) = false /\
  lockDiscipline false [EvWaitSet "42" 0] = false /\
  lockDiscipline false
    (traceOf (client.Subscribe 1 "/topic/x" quietHandler [] freshClient)) = true.
Proof. repeat split; vm_compute; reflexivity. Qed.

(** C2, as claimed, fails: an ERROR frame, and a MESSAGE frame for a
    subscription without handler, are logged and dropped; the listen task
    does not release them to the pool. *)
Lemma listen_drops_without_release :
  traceOf (client.listenIter (listeningClient quietHandler [errorFrame])) =
    [EvPeerRecv (Some errorFrame);
     EvLog Notice "stomp client: unknown message type: %s" (AnyString "ERROR")] /\
  ~ In (EvRelease errorFrame)
      (traceOf (client.listenIter (listeningClient quietHandler [errorFrame]))) /\
  traceOf (client.listenIter (listeningClient quietHandler [messageFrame "5"])) =
    [EvPeerRecv (Some (messageFrame "5")); EvLock; EvUnlock;
     EvLog Notice "stomp client: subscription not found: %s" (AnyString "5")] /\
  ~ In (EvRelease (messageFrame "5"))
      (traceOf (client.listenIter (listeningClient quietHandler [messageFrame "5"]))).
Proof.
  repeat split; try (vm_compute; reflexivity);
    intros Hin; vm_compute in Hin; intuition discriminate.
Qed.

(** C10: [sendMessage] is to take the waiter of the call out of the wait
    map before it returns, on every path.  When the peer's [Send] fails it
    does.  When the receipt arrives it does not: the deferred function
    reads the receipt id from the message, which the writer of the socket
    peer has released by then, so that the key it deletes is the empty one
    and the waiter of the call stays in the wait map. *)
Theorem sendMessage_leaves_waiter_after_receipt :
  client.wait (listeningClient quietHandler [receiptFrame "42"]) !! "42" = None /\
  (exists c',
     client.sendMessage 1 (sendFrame "hello" 42)
       (listeningClient quietHandler [receiptFrame "42"]) =
       client.Ret None c'
         [EvWaitSet "42" 0; EvPeerSend (sendFrame "hello" 42);
          EvPeerRecv (Some (receiptFrame "42")); EvLock; EvUnlock;
          EvTokenSend 0; EvTokenRecv 0; EvWaitDel ""] /\
     client.wait c' !! "42" = Some 0%nat /\
     client.wait c' <> client.wait (listeningClient quietHandler [receiptFrame "42"])) /\
  (exists c',
     client.sendMessage 1 (sendFrame "hello" 42) (client.New closedPeer) =
       client.Ret (Some EOF) c'
         [EvWaitSet "42" 0; EvPeerSend (sendFrame "hello" 42); EvWaitDel "42"] /\
     client.wait c' = client.wait (client.New closedPeer)).
Proof.
  split; [vm_compute; reflexivity |]. split.
  - eexists. split; [vm_compute; reflexivity |].
    split; [vm_compute; reflexivity |].
    intros E. apply (f_equal (fun w => w !! "42")) in E. vm_compute in E. discriminate.
  - eexists. split; [vm_compute; reflexivity |]. vm_compute. reflexivity.
Qed.

(** A failed send takes away the waiter of another call that is still
    waiting under the same receipt id. *)
Lemma sendMessage_removes_a_waiter_of_another_call :
  client.wait pendingClient !! "42" = Some 0%nat /\
  exists c' t,
    client.sendMessage 1 (sendFrame "b" 42) pendingClient = client.Ret (Some EOF) c' t /\
    client.wait c' !! "42" = None /\
    client.wait c' <> client.wait pendingClient.
Proof.
  split; [vm_compute; reflexivity |].
  eexists _, _. split; [vm_compute; reflexivity |].
  split; [vm_compute; reflexivity |].
  intros E. apply (f_equal (fun w => w !! "42")) in E. vm_compute in E. discriminate.
Qed.

(** *** sendMessage and its callers *)

Section SendFacts.
Context {P : Type} `{Peer.Peer string P}.
Import client.
Implicit Types c : Client P.

Lemma receipt_set (m : Message string) :
  Receipt m <> "" -> (String.length (Receipt m) =? 0)%nat = false.
Proof. intros Hr. destruct (Receipt m); [now elim Hr | reflexivity]. Qed.

Lemma quiet_no_send (t : list event) :
  forallb quiet t = true -> forall m, ~ In (EvPeerSend m) t.
Proof.
  intros Hq m Hin. rewrite forallb_forall in Hq. now apply Hq in Hin.
Qed.

(** A frame without receipt goes to the peer at once. *)
Lemma sendMessage_plain fuel (m : Message string) c :
  Receipt m = "" -> sendMessage fuel m c = peerSend m c.
Proof. intros E. unfold sendMessage. now rewrite E. Qed.

(** The send fails: the waiter is registered, the frame handed over, the
    waiter removed, and the error returned, whatever the bound. *)
Lemma sendMessage_send_fails fuel (m : Message string) c (e : error) (p' : P) :
  Receipt m <> "" ->
  Peer.Send (peer c) m = Ok (Some e, p') ->
  sendMessage fuel m c =
    Ret (Some e)
      (set_wait (set_peer (set_chans c (chans c ++ [O])) p')
         (delete (Receipt (Peer.Kept p' m))
            (<[Receipt m := length (chans c)]> (wait c))))
      [EvWaitSet (Receipt m) (length (chans c)); EvPeerSend m;
       EvWaitDel (Receipt (Peer.Kept p' m))].
Proof.
  intros Hr Hs. unfold sendMessage. rewrite receipt_set by assumption.
  unfold bind, defer, makeChan, peerSend, ret. simpl. rewrite Hs. reflexivity.
Qed.

(** When [sendMessage] returns for a frame with a receipt, by whichever
    path, the entry registered for the call is in the wait map up to the
    deferred removal, and the key removed is the receipt id read from the
    message at that moment.  [subs] and [seq] are as before. *)
Lemma sendMessage_returns fuel (m : Message string) c r c' t :
  Receipt m <> "" ->
  sendMessage fuel m c = Ret r c' t ->
  wait c' = delete (Receipt (Peer.Kept (peer c') m))
              (<[Receipt m := length (chans c)]> (wait c)) /\
  subs c' = subs c /\ seq c' = seq c.
Proof.
  intros Hr. unfold sendMessage. rewrite receipt_set by assumption.
  unfold bind, defer, makeChan, peerSend, ret. simpl.
  destruct (Peer.Send (peer c) m) as [[[e|] p']|v]; simpl.
  - intros [= <- <- <-]. simpl. repeat split.
  - match goal with
    | |- context [await fuel ?ch ?c0] =>
        pose proof (bystander_await fuel ch c0) as (Hw & Hs & Hq & _);
        destruct (await fuel ch c0) as [[] c1 t1|v c1 t1|v c1 t1|c1 t1|c1 t1]
    end; simpl in *; try discriminate.
    intros [= <- <- <-]. simpl. rewrite Hw, Hs, Hq. repeat split.
  - discriminate.
Qed.

Lemma traceOf_before {A} (t : list event) (r : res P A) :
  traceOf (before t r) = (t ++ traceOf r)%list.
Proof. destruct r; reflexivity. Qed.

(** Up to the hand-over to the peer, [sendMessage] at most registers the
    waiter. *)
Lemma sendMessage_trace fuel (m : Message string) c :
  exists post,
    traceOf (sendMessage fuel m c) =
      ((if (String.length (Receipt m) =? 0)%nat then []
        else [EvWaitSet (Receipt m) (length (chans c))]) ++ EvPeerSend m :: post)%list /\
    (forall m', ~ In (EvPeerSend m') post).
Proof.
  unfold sendMessage. destruct (String.length (Receipt m) =? 0)%nat.
  - unfold peerSend. destruct (Peer.Send (peer c) m) as [[e p']|v];
      exists []; split; simpl; auto.
  - unfold bind, defer, makeChan, peerSend, ret, panic. simpl.
    destruct (Peer.Send (peer c) m) as [[[e|] p']|v]; simpl.
    + eexists. split; [reflexivity |]. simpl. intros m' [E|[]]. discriminate.
    + match goal with
      | |- context [await fuel ?ch ?c0] =>
          pose proof (bystander_await fuel ch c0) as (_ & _ & _ & Hq);
          destruct (await fuel ch c0) as [[] c1 t1|v c1 t1|v c1 t1|c1 t1|c1 t1]
      end; simpl in *; eexists; (split; [reflexivity |]);
        intros m' Hin; rewrite ?in_app_iff in Hin; simpl in Hin;
        pose proof (quiet_no_send _ Hq m'); intuition discriminate.
    + eexists. split; [reflexivity |]. simpl. intros m' [E|[]]. discriminate.
Qed.

Lemma waiterRegistered_no_send (w : gset string) (t : list event) :
  (forall m, ~ In (EvPeerSend m) t) -> waiterRegistered w t = true.
Proof.
  revert w. induction t as [|e t IH]; intros w Hn; [reflexivity |].
  assert (Ht : forall m, ~ In (EvPeerSend m) t) by (intros m Hin; apply (Hn m); now right).
  destruct e; simpl; auto.
  exfalso. apply (Hn m). now left.
Qed.

(** Every frame that goes through [sendMessage] has its waiter registered
    when it reaches the peer. *)
Lemma sendMessage_registers_waiter fuel (m : Message string) c :
  waiterRegistered (dom (wait c)) (traceOf (sendMessage fuel m c)) = true.
Proof.
  destruct (sendMessage_trace fuel m c) as (post & -> & Hpost).
  destruct (String.length (Receipt m) =? 0)%nat eqn:E; simpl;
    rewrite waiterRegistered_no_send by assumption; rewrite andb_true_r.
  - unfold wantsReceipt. now rewrite E.
  - destruct (wantsReceipt m); [| reflexivity]. apply bool_decide_eq_true. set_solver.
Qed.

(** [sendMessage] leaves [subs] and [seq] alone, however it ends. *)
Lemma sendMessage_keeps fuel (m : Message string) c :
  subs (stateOf (sendMessage fuel m c)) = subs c /\
  seq (stateOf (sendMessage fuel m c)) = seq c.
Proof.
  unfold sendMessage. destruct (String.length (Receipt m) =? 0)%nat.
  - unfold peerSend. destruct (Peer.Send (peer c) m) as [[e p']|v]; split; reflexivity.
  - unfold bind, defer, makeChan, peerSend, ret, panic. simpl.
    destruct (Peer.Send (peer c) m) as [[[e|] p']|v]; simpl; try (split; reflexivity).
    match goal with
    | |- context [await fuel ?ch ?c0] =>
        pose proof (bystander_await fuel ch c0) as (_ & Hs & Hq & _);
        destruct (await fuel ch c0) as [[] c1 t1|v c1 t1|v c1 t1|c1 t1|c1 t1]
    end; simpl in *; split; assumption.
Qed.

(** C3, as the code has it: [Subscribe] registers the handler under the
    identifier it has just allocated before the SUBSCRIBE frame reaches the
    peer, so that the handler is in [subs] however the call ends, unless it
    returns an error; and when the peer's [Send] fails, the handler is
    removed again and the error returned: [subs] is then the map before the
    call without the identifier, which is the map before the call whenever
    the identifier was not a key of it. *)
Theorem Subscribe_rollback fuel (dest : string) (handler : Handler)
    (opts : list MessageOption) c :
  mu c = false ->
  (exists pre post,
     traceOf (Subscribe fuel dest handler opts c) =
       (pre ++ EvPeerSend (subscribeFrame (AppendInt (seq c)) dest opts) :: post)%list /\
     In (EvSubsSet (AppendInt (seq c))) pre /\
     ~ In (EvSubsDel (AppendInt (seq c))) pre /\
     (forall m', ~ In (EvPeerSend m') pre)) /\
  ((forall e, valueOf (Subscribe fuel dest handler opts c)
              <> Some (AppendInt (seq c), Some e)) ->
   subs (stateOf (Subscribe fuel dest handler opts c))
     = <[AppendInt (seq c) := handler]> (subs c)) /\
  (forall e p',
     Peer.Send (peer c) (subscribeFrame (AppendInt (seq c)) dest opts) = Ok (Some e, p') ->
     exists c' t,
       Subscribe fuel dest handler opts c = Ret (AppendInt (seq c), Some e) c' t /\
       In (EvSubsDel (AppendInt (seq c))) t /\
       subs c' = delete (AppendInt (seq c)) (subs c) /\
       subs c' !! AppendInt (seq c) = None /\
       (subs c !! AppendInt (seq c) = None -> subs c' = subs c)).
Proof.
  unfold subscribeFrame.
  set (id := AppendInt (seq c)).
  set (m := Apply (set_Dest (set_ID (set_Method (NewMessage "") MethodSubscribe) id) dest) opts).
  intros Hmu. split; [| split].
  - unfold Subscribe. unfold bind at 1. rewrite incr_run by assumption.
    fold id. cbv zeta. fold m.
    unfold bind at 1 2 3, Lock, Unlock. simpl. rewrite Hmu. simpl.
    match goal with
    | |- context [bind (sendMessage fuel m) ?k ?c0] =>
        unfold bind at 1;
        destruct (sendMessage_trace fuel m c0) as (post & Ht & Hpost);
        destruct (sendMessage fuel m c0) as [[e|] c1 t1|v c1 t1|v c1 t1|c1 t1|c1 t1]
    end; simpl in Ht; subst t1.
    all: rewrite !traceOf_before; simpl traceOf.
    all: destruct (String.length (Receipt m) =? 0)%nat; simpl;
      [ exists [EvLock; EvSeq (wrap64 (seq c + 1)); EvUnlock; EvLock; EvSubsSet id; EvUnlock]
      | exists [EvLock; EvSeq (wrap64 (seq c + 1)); EvUnlock; EvLock; EvSubsSet id; EvUnlock;
                EvWaitSet (Receipt m) (length (chans c))] ].
    all: eexists; (split; [simpl; reflexivity |]); (split; [simpl; tauto |]).
    all: split; [intros Hin | intros m' Hin]; simpl in Hin; intuition discriminate.
  - remember (Subscribe fuel dest handler opts c) as r eqn:Er. revert Er.
    unfold Subscribe. unfold bind at 1. rewrite incr_run by assumption.
    fold id. cbv zeta. fold m.
    unfold bind at 1 2 3, Lock, Unlock. simpl. rewrite Hmu. simpl.
    match goal with
    | |- context [bind (sendMessage fuel m) ?k ?c0] =>
        unfold bind at 1;
        pose proof (sendMessage_keeps fuel m c0) as (Hs & _);
        destruct (sendMessage fuel m c0) as [[e|] c1 t1|v c1 t1|v c1 t1|c1 t1|c1 t1]
    end; simpl in Hs; simpl; try (intros -> _; exact Hs).
    unfold bind, Lock, Unlock, ret. destruct (mu c1); simpl; intros ->; simpl.
    + intros _. exact Hs.
    + intros Hne. now elim (Hne e).
  - intros e p' Hs. unfold Subscribe. unfold bind at 1. rewrite incr_run by assumption.
    fold id. cbv zeta. fold m.
    unfold bind at 1 2 3, Lock, Unlock. simpl. rewrite Hmu. simpl.
    unfold bind at 1.
    destruct (Receipt m) as [|a s] eqn:E.
    + rewrite sendMessage_plain by assumption. unfold peerSend. simpl.
      rewrite Hs. simpl.
      eexists _, _. split; [reflexivity |]. split; [simpl; tauto |].
      simpl. rewrite delete_insert_eq.
      split; [reflexivity |]. split; [apply lookup_delete_eq |].
      intros Hfresh. now apply delete_id.
    + rewrite (sendMessage_send_fails _ _ _ e p') by (simpl; congruence).
      simpl.
      eexists _, _. split; [reflexivity |]. split; [simpl; tauto |].
      simpl. rewrite delete_insert_eq.
      split; [reflexivity |]. split; [apply lookup_delete_eq |].
      intros Hfresh. now apply delete_id.
Qed.

(** *** The listen task *)

Ltac dispatch_case :=
  intros; unfold not; intros; simpl in *;
  repeat match goal with
         | H : _ \/ _ |- _ => destruct H
         | H : False |- _ => destruct H
         | H : EvHandle _ _ = EvHandle _ _ |- _ => injection H as <- <-
         | H : @eq event _ _ |- _ => discriminate H
         end;
  try congruence; try reflexivity; try tauto;
  try (repeat split; eauto; congruence).

(** C2, as the code has it: for an inbound frame the listen task took from
    the peer, a MESSAGE without handler under its [Subs] and a frame that
    is neither MESSAGE nor RECEIPT are logged at notice and dropped, the
    client being otherwise unchanged; a MESSAGE with a registered handler
    is passed to that handler, and nothing else ever is; the listen task
    releases no message to the pool. *)
Theorem listenIter_dispatch c (m : Message string) (p' : P) :
  mu c = false ->
  Peer.Receive (peer c) = Some (Some m, p') ->
  (Method m = MethodMessage -> subs c !! Subs m = None ->
     listenIter c =
       Ret true (set_peer c p')
         [EvPeerRecv (Some m); EvLock; EvUnlock;
          EvLog Notice "stomp client: subscription not found: %s" (AnyString (Subs m))]) /\
  (Method m <> MethodMessage -> Method m <> MethodRecipet ->
     listenIter c =
       Ret true (set_peer c p')
         [EvPeerRecv (Some m);
          EvLog Notice "stomp client: unknown message type: %s" (AnyString (Method m))]) /\
  (forall h, Method m = MethodMessage -> subs c !! Subs m = Some h ->
     traceOf (listenIter c) =
       [EvPeerRecv (Some m); EvLock; EvUnlock; EvHandle (Subs m) m]) /\
  (forall k m', In (EvHandle k m') (traceOf (listenIter c)) ->
     Method m = MethodMessage /\ is_Some (subs c !! Subs m) /\ k = Subs m /\ m' = m) /\
  (forall m', ~ In (EvRelease m') (traceOf (listenIter c))).
Proof.
  intros Hmu Hrecv.
  unfold listenIter, bind, peerReceive. rewrite Hrecv. simpl.
  destruct c as [mu0 p0 s0 w0 d0 q0 ch0 l0]. simpl in *. subst mu0.
  destruct (String.eqb_spec (Method m) MethodMessage) as [HM|HM];
    [| destruct (String.eqb_spec (Method m) MethodRecipet) as [HR|HR]];
    unfold handleMessage, handleReceipt, bind, Lock, Unlock, log, tokenSend; simpl.
  - destruct (s0 !! Subs m) as [h|] eqn:Hh; simpl; [destruct (h m) |];
      simpl; (split; [| split; [| split; [| split]]]); dispatch_case.
  - destruct (w0 !! Receipt m) as [ch|]; simpl;
      [destruct (ch0 !! ch) as [[|n]|] |];
      simpl; (split; [| split; [| split; [| split]]]); dispatch_case.
  - (split; [| split; [| split; [| split]]]); dispatch_case.
Qed.

Lemma listenIter_listening c :
  listening (stateOf (listenIter c)) = listening c.
Proof.
  unfold listenIter, bind, peerReceive, doneSend, ret.
  destruct (Peer.Receive (peer c)) as [[[m|] p']|]; simpl; try reflexivity.
  - destruct (String.eqb (Method m) MethodMessage);
      [| destruct (String.eqb (Method m) MethodRecipet)];
      unfold handleMessage, handleReceipt, bind, Lock, Unlock, log, tokenSend; simpl;
      destruct (mu c); simpl; try reflexivity.
    + destruct (subs c !! Subs m) as [h|]; simpl; [destruct (h m) |]; reflexivity.
    + destruct (wait c !! Receipt m) as [ch|]; simpl;
        [destruct (chans c !! ch) as [[|n]|] |]; reflexivity.
  - destruct (done c); reflexivity.
Qed.

(** The listen task advances by [listenStep]: a run of [listen] is a first
    step followed, while the task goes on, by the rest of the run. *)
Lemma listen_step fuel c :
  listening c = true ->
  listen (S fuel) c =
  bind listenStep (fun _ c' => if listening c' then listen fuel c' else ret tt c') c.
Proof.
  intros Hl. unfold listen, listenStep. simpl listenLoop.
  unfold bind, recovering, stopListening, ret.
  pose proof (listenIter_listening c) as Hk.
  destruct (listenIter c) as [[|] c1 t1|v c1 t1|v' c1 t1|c1 t1|c1 t1]; simpl in *;
    try reflexivity.
  - rewrite Hk, Hl.
    destruct (listenLoop fuel c1) as [[] c2 t2|v c2 t2|v' c2 t2|c2 t2|c2 t2]; simpl;
      rewrite ?app_nil_r, <- ?app_assoc; try reflexivity.
    destruct (listenRecover v c2) as [[] c3 t3|v3 c3 t3|v3 c3 t3|c3 t3|c3 t3]; simpl;
      rewrite ?app_nil_r, <- ?app_assoc; reflexivity.
  - destruct (listenRecover v c1) as [[] c3 t3|v3 c3 t3|v3 c3 t3|c3 t3|c3 t3]; simpl;
      rewrite ?app_nil_r, <- ?app_assoc; reflexivity.
Qed.

End SendFacts.

Lemma Subscribe_rollback_witness :
  client.mu subscribedClient = false /\
  client.subs subscribedClient !! "0" = Some quietHandler /\
  exists c' t,
    client.Subscribe 1 "/topic/y" panicsWithError [] subscribedClient =
      client.Ret ("1", Some EOF) c' t /\
    In (EvSubsDel "1") t /\
    client.subs c' = client.subs subscribedClient /\
    client.subs c' !! "0" = Some quietHandler /\
    client.subs c' !! "1" = None.
Proof.
  split; [reflexivity |]. split; [vm_compute; reflexivity |].
  assert (Hs : Peer.Send (client.peer subscribedClient)
                 (subscribeFrame (AppendInt (client.seq subscribedClient)) "/topic/y" [])
               = Ok (Some EOF, client.peer subscribedClient))
    by (vm_compute; reflexivity).
  destruct (proj2 (proj2 (Subscribe_rollback 1 "/topic/y" panicsWithError []
                            subscribedClient eq_refl)) EOF _ Hs)
    as (c' & t & Hrun & Hdel & _ & Hnone & Hsame).
  exists c', t. split; [exact Hrun |]. split; [exact Hdel |].
  assert (E : client.subs c' = client.subs subscribedClient)
    by (apply Hsame; vm_compute; reflexivity).
  split; [exact E |]. split; [rewrite E; vm_compute; reflexivity | exact Hnone].
Defined.

(** *** The counter comes round *)

Lemma wrap64_no_zero (z : Z) : (1 <= z < 2 ^ 64)%Z -> wrap64 z <> 0%Z.
Proof.
  intros Hz. unfold wrap64. destruct (Z_lt_ge_dec z (2 ^ 63)) as [Hlt|Hge].
  - rewrite Z.mod_small by lia. lia.
  - replace (z + 2 ^ 63)%Z with ((z - 2 ^ 63) + 1 * 2 ^ 64)%Z by lia.
    rewrite Z_mod_plus_full, Z.mod_small by lia. lia.
Qed.

(** On a closed socket peer a [Subscribe] without options fails: it has
    advanced the counter and [subs] is without the identifier. *)
Lemma Subscribe_on_closed_peer (c : client.Client (@conn.connPeer string))
    (dest : string) (h : Handler) :
  client.mu c = false -> closed (conn.done (client.peer c)) = true ->
  client.Subscribe 1 dest h [] c =
    client.Ret (AppendInt (client.seq c), Some EOF)
      (client.set_subs (client.set_seq c (wrap64 (client.seq c + 1)))
         (delete (AppendInt (client.seq c)) (client.subs c)))
      [EvLock; EvSeq (wrap64 (client.seq c + 1)); EvUnlock;
       EvLock; EvSubsSet (AppendInt (client.seq c)); EvUnlock;
       EvPeerSend (subscribeFrame (AppendInt (client.seq c)) dest []);
       EvLock; EvSubsDel (AppendInt (client.seq c)); EvUnlock].
Proof.
  destruct c as [mu0 p0 s0 w0 d0 q0 ch0 l0].
  destruct p0 as [addr rx0 b0 [dbuf dcl] ich och].
  cbn [client.mu client.peer conn.done closed]. intros -> ->.
  unfold client.Subscribe, client.bind, client.incr, client.Lock, client.Unlock,
    client.ret, client.sendMessage, client.peerSend. simpl.
  now rewrite delete_insert_eq.
Qed.

Lemma subscribedClient_eq :
  subscribedClient =
    client.mkClient false
      (conn.mk "srv" "" 0 (mkChan [] true) (mkChan [] true)
         (mkChan [subscribeFrame "0" "/topic/x" []; disconnectFrame] true))
      {["0" := quietHandler]} ∅ [] 1 [] false.
Proof. vm_compute. reflexivity. Qed.

(** The failed calls leave the first subscription in place and bring the
    counter round. *)
Lemma afterSubscribes_wraps (n : N) :
  (n < 18446744073709551616)%N ->
  afterSubscribes n subscribedClient =
    client.set_seq subscribedClient (wrap64 (1 + Z.of_N n)).
Proof.
  unfold afterSubscribes. induction n as [|n IH] using N.peano_ind; intros Hn.
  - rewrite subscribedClient_eq. reflexivity.
  - rewrite N.iter_succ, IH by lia.
    rewrite Subscribe_on_closed_peer;
      [| rewrite subscribedClient_eq; reflexivity
       | rewrite subscribedClient_eq; reflexivity].
    rewrite subscribedClient_eq. cbn [stateOf client.set_seq client.set_subs
      client.seq client.subs client.mu client.peer client.wait client.done
      client.chans client.listening].
    rewrite wrap64_succ. rewrite N2Z.inj_succ.
    replace (1 + Z.succ (Z.of_N n))%Z with (1 + Z.of_N n + 1)%Z by lia.
    unfold client.set_subs, client.set_seq.
    cbn [client.seq client.subs client.mu client.peer client.wait client.done
      client.chans client.listening].
    f_equal. apply delete_id. apply lookup_singleton_ne.
    intros E. change "0" with (AppendInt 0) in E. apply AppendInt_inj in E.
    symmetry in E. revert E. apply wrap64_no_zero. lia.
Qed.

(** C3, as claimed, fails once the counter has come round: the client
    has a subscription under "0", its peer is closed and 2^64 - 1 further
    calls of [Subscribe] have failed.  The next call is given "0" again,
    puts its handler in the place of the first one and, its send failing,
    removes the key: the first subscription has lost its handler, and
    [subs] is not what it was before the call. *)
Lemma Subscribe_rollback_removes_an_older_handler :
  client.mu (afterSubscribes 18446744073709551615 subscribedClient) = false /\
  client.subs (afterSubscribes 18446744073709551615 subscribedClient) !! "0"
    = Some quietHandler /\
  exists c' t,
    client.Subscribe 1 "/topic/y" panicsWithError []
      (afterSubscribes 18446744073709551615 subscribedClient)
      = client.Ret ("0", Some EOF) c' t /\
    client.subs c' !! "0" = None /\
    client.subs c' <> client.subs (afterSubscribes 18446744073709551615 subscribedClient).
Proof.
  rewrite afterSubscribes_wraps by lia.
  split; [vm_compute; reflexivity |]. split; [vm_compute; reflexivity |].
  eexists _, _. split; [vm_compute; reflexivity |].
  split; [vm_compute; reflexivity |].
  intros E. apply (f_equal (fun w => w !! "0")) in E. vm_compute in E. discriminate.
Qed.

Lemma listenIter_dispatch_witness :
  client.mu (listeningClient quietHandler [errorFrame]) = false /\
  Peer.Receive (client.peer (listeningClient quietHandler [errorFrame]))
    = Some (Some errorFrame, peerWith []) /\
  Method errorFrame <> MethodMessage /\ Method errorFrame <> MethodRecipet /\
  client.listenIter (listeningClient quietHandler [errorFrame]) =
    client.Ret true (client.set_peer (listeningClient quietHandler [errorFrame]) (peerWith []))
      [EvPeerRecv (Some errorFrame);
       EvLog Notice "stomp client: unknown message type: %s" (AnyString (Method errorFrame))].
Proof.
  split; [reflexivity |]. split; [reflexivity |].
  split; [discriminate |]. split; [discriminate |].
  assert (Hm : client.mu (listeningClient quietHandler [errorFrame]) = false)
    by reflexivity.
  assert (Hr : Peer.Receive (client.peer (listeningClient quietHandler [errorFrame]))
               = Some (Some errorFrame, peerWith [])) by reflexivity.
  apply (proj1 (proj2 (listenIter_dispatch (listeningClient quietHandler [errorFrame])
                         errorFrame (peerWith []) Hm Hr))); discriminate.
Defined.

(** *** Further facts on the receipt protocol and on recovery *)

Section ReceiptFacts.
Context {P : Type} `{Peer.Peer string P}.
Import client.
Implicit Types c : Client P.

Ltac run_client :=
  repeat progress
    (unfold bind, defer, makeChan, peerSend, tokenRecv, otherTask, listenStep,
       recovering, listenIter, peerReceive, handleReceipt, Lock, Unlock, tokenSend,
       ret, stopListening;
     simpl).

(** The receipt arrives: with the listen task running and the matching
    RECEIPT frame next on the peer, [sendMessage] returns success once the
    listen task has handled that frame; the entry then removed from the
    wait map is the one under the receipt id that the message holds by
    then. *)
Lemma sendMessage_receipt_arrives fuel (m rc : Message string) c (p1 p2 : P) :
  Receipt m <> "" -> mu c = false -> listening c = true ->
  Peer.Send (peer c) m = Ok (None, p1) ->
  Peer.Receive p1 = Some (Some rc, p2) ->
  Method rc = MethodRecipet -> Receipt rc = Receipt m ->
  exists c',
    sendMessage (S fuel) m c =
      Ret None c'
        [EvWaitSet (Receipt m) (length (chans c)); EvPeerSend m;
         EvPeerRecv (Some rc); EvLock; EvUnlock;
         EvTokenSend (length (chans c)); EvTokenRecv (length (chans c));
         EvWaitDel (Receipt (Peer.Kept p2 m))] /\
    wait c' = delete (Receipt (Peer.Kept p2 m))
                (<[Receipt m := length (chans c)]> (wait c)) /\
    peer c' = p2.
Proof.
  intros Hr Hmu Hl Hs Hrecv HM HR.
  destruct c as [mu0 p0 s0 w0 d0 q0 ch0 l0]. simpl in *. subst mu0 l0.
  assert (Hlook : (ch0 ++ [O])%list !! length ch0 = Some O).
  { rewrite lookup_app_r by lia. now rewrite Nat.sub_diag. }
  assert (Hlook1 : <[length ch0 := 1%nat]> (ch0 ++ [O])%list !! length ch0 = Some 1%nat).
  { apply list_lookup_insert_eq. rewrite length_app. simpl. lia. }
  unfold sendMessage. rewrite receipt_set by assumption.
  cbn [await].
  run_client. rewrite Hs. run_client. rewrite Hlook. run_client.
  rewrite Hrecv. run_client. rewrite HM. run_client.
  rewrite HR, lookup_insert_eq. run_client. rewrite Hlook. run_client.
  destruct fuel; run_client; rewrite Hlook1; run_client;
    (eexists; split; [reflexivity |]; simpl; split; reflexivity).
Qed.

(** The deferred function of [listen] delivers a panic value that is an
    error on [done] ... *)
Lemma listenRecover_error (e : error) c :
  done c = [] ->
  listenRecover (AnyError e) c =
    Ret tt (set_done c [e])
      [EvLog Warning "stomp client: recover panic: %s" (AnyError e); EvDone e].
Proof. intros Hd. unfold listenRecover, bind, log, doneSend. simpl. now rewrite Hd. Qed.

(** ... and panics itself on any other panic value, delivering nothing. *)
Lemma listenRecover_not_error (v : any) c :
  (forall e, v <> AnyError e) ->
  listenRecover v c =
    Panics (AnyError (RuntimeError "interface conversion: interface {} is not error")) c
      [EvLog Warning "stomp client: recover panic: %s" v].
Proof.
  intros Hv. unfold listenRecover, bind, log, panic. simpl.
  destruct v as [e|s|z]; [now elim (Hv e) | reflexivity | reflexivity].
Qed.

End ReceiptFacts.

(** *** Fresh identifiers *)

Section FreshIds.
Context {P : Type} `{Peer.Peer string P}.
Import client.
Implicit Types c : Client P.

Lemma idsBelowSeq_New (p : P) : idsBelowSeq (New p).
Proof.
  split; [simpl; lia |]. intros k [h Hk]. simpl in Hk.
  rewrite lookup_empty in Hk. discriminate.
Qed.

(** Under the invariant the identifier that [incr] hands out next is not a
    key of [subs]. *)
Lemma idsBelowSeq_fresh c : idsBelowSeq c -> subs c !! AppendInt (seq c) = None.
Proof.
  intros [Hq Hk]. destruct (subs c !! AppendInt (seq c)) as [h|] eqn:E; [| reflexivity].
  destruct (Hk (AppendInt (seq c))) as (i & Hi & Ei); [now exists h |].
  apply AppendInt_inj in Ei. lia.
Qed.

(** [Subscribe], however it ends, advances the counter by one and adds at
    most the new identifier to the keys of [subs]. *)
Lemma Subscribe_state fuel (dest : string) (handler : Handler)
    (opts : list MessageOption) c c' :
  mu c = false ->
  c' = stateOf (Subscribe fuel dest handler opts c) ->
  seq c' = wrap64 (seq c + 1) /\
  forall k, is_Some (subs c' !! k) -> k = AppendInt (seq c) \/ is_Some (subs c !! k).
Proof.
  intros Hmu. unfold Subscribe. unfold bind at 1. rewrite incr_run by assumption.
  set (id := AppendInt (seq c)).
  set (m := Apply _ opts).
  unfold bind at 1 2 3, Lock, Unlock. simpl. rewrite Hmu. simpl.
  match goal with
  | |- context [bind (sendMessage fuel m) ?k ?c0] =>
      unfold bind at 1;
      pose proof (sendMessage_keeps fuel m c0) as (Hs & Hq);
      destruct (sendMessage fuel m c0) as [[e|] c1 t1|v c1 t1|v c1 t1|c1 t1|c1 t1]
  end; simpl in *.
  2-6: intros ->; split; [assumption |]; intros k Hk; rewrite Hs in Hk;
    destruct (decide (k = id)) as [->|Hne]; [now left | right];
    now rewrite lookup_insert_ne in Hk by congruence.
  unfold bind, Lock, Unlock, ret. destruct (mu c1); simpl; intros ->; simpl.
  - split; [assumption |]. intros k Hk. rewrite Hs in Hk.
    destruct (decide (k = id)) as [->|Hne]; [now left | right].
    now rewrite lookup_insert_ne in Hk by congruence.
  - split; [assumption |]. intros k Hk. rewrite Hs in Hk.
    destruct (decide (k = id)) as [->|Hne]; [now left | right].
    rewrite lookup_delete_ne, lookup_insert_ne in Hk by congruence. exact Hk.
Qed.

(** The invariant holds on a fresh client and [Subscribe] keeps it, as
    long as the counter stays below 2^63: every identifier that
    [Subscribe] allocates is then fresh. *)
Lemma idsBelowSeq_Subscribe fuel (dest : string) (handler : Handler)
    (opts : list MessageOption) c :
  mu c = false -> idsBelowSeq c -> (seq c + 1 < 2 ^ 63)%Z ->
  idsBelowSeq (stateOf (Subscribe fuel dest handler opts c)).
Proof.
  intros Hmu [Hq Hk] Hlt.
  destruct (Subscribe_state fuel dest handler opts c _ Hmu eq_refl) as [Hq' Hk'].
  rewrite wrap64_small in Hq' by lia.
  split; [lia |]. intros k Hsome. rewrite Hq'.
  destruct (Hk' k Hsome) as [->|Hold].
  - exists (seq c). split; [lia | reflexivity].
  - destruct (Hk k Hold) as (i & Hi & ->). exists i. split; [lia | reflexivity].
Qed.

(** A run that keeps the counter and adds no key keeps the invariant:
    so do [sendMessage] (hence [Send] and [Ack]), [Unsubscribe], and the
    steps of the listen task. *)
Lemma idsBelowSeq_keeps c c' :
  seq c' = seq c ->
  (forall k, is_Some (subs c' !! k) -> is_Some (subs c !! k)) ->
  idsBelowSeq c -> idsBelowSeq c'.
Proof.
  intros Hq Hk [Hr Hi]. split; [now rewrite Hq |].
  intros k Hsome. rewrite Hq. now apply Hi, Hk.
Qed.

Lemma idsBelowSeq_sendMessage fuel (m : Message string) c :
  idsBelowSeq c -> idsBelowSeq (stateOf (sendMessage fuel m c)).
Proof.
  destruct (sendMessage_keeps fuel m c) as [Hs Hq].
  apply idsBelowSeq_keeps; [assumption |]. intros k. now rewrite Hs.
Qed.

Lemma idsBelowSeq_listenStep c :
  idsBelowSeq c -> idsBelowSeq (stateOf (listenStep c)).
Proof.
  destruct (bystander_listenStep c) as (_ & Hs & Hq & _).
  apply idsBelowSeq_keeps; [assumption |]. intros k. now rewrite Hs.
Qed.

Lemma idsBelowSeq_Unsubscribe fuel (id : bytes) (opts : list MessageOption) c c' :
  mu c = false ->
  c' = stateOf (Unsubscribe fuel id opts c) ->
  idsBelowSeq c -> idsBelowSeq c'.
Proof.
  intros Hmu. unfold Unsubscribe.
  unfold bind at 1 2 3, Lock, Unlock. simpl. rewrite Hmu. simpl.
  match goal with
  | |- context [sendMessage fuel ?m ?c0] =>
      pose proof (sendMessage_keeps fuel m c0) as (Hs & Hq);
      destruct (sendMessage fuel m c0) as [e c1 t1|v c1 t1|v c1 t1|c1 t1|c1 t1]
  end; simpl in *; intros ->; simpl;
    (apply idsBelowSeq_keeps; [assumption |]);
    intros k; rewrite Hs; intros Hk;
    (destruct (decide (id = k)) as [->|Hne];
       [rewrite lookup_delete_eq in Hk; now destruct Hk
       | now rewrite lookup_delete_ne in Hk by assumption]).
Qed.

End FreshIds.

(** *** The channels of a socket peer stay closed together *)

Section ConnInvariant.
Context {I : Type}.
Implicit Types c : @conn.connPeer I.

Lemma closed_together_Send c (m : Message I) (e : option error) c' :
  closed_together c -> conn.Send c m = Ok (e, c') -> closed_together c'.
Proof.
  intros [Hi Ho]. unfold conn.Send, chan_send.
  destruct (closed (conn.done c)) eqn:Hd.
  - intros [= <- <-]. split; congruence.
  - rewrite Ho. intros [= <- <-]. split; simpl; congruence.
Qed.

Lemma closed_together_Close c (e : option error) c' (l : list chan_name) :
  closed_together c -> conn.Close c = Ok (e, c', l) -> closed_together c'.
Proof.
  intros [Hi Ho]. unfold conn.Close, conn.close, chan_close.
  destruct (closed (conn.done c)) eqn:Hd.
  - intros [= <- <- <-]. split; congruence.
  - rewrite Hi, Ho. intros [= <- <- <-]. split; reflexivity.
Qed.

(** On such a peer neither [Send] nor [Close] panics. *)
Lemma closed_together_no_panic c (m : Message I) :
  closed_together c ->
  (exists e c', conn.Send c m = Ok (e, c')) /\
  (exists e c' l, conn.Close c = Ok (e, c', l)).
Proof.
  intros [Hi Ho]. unfold conn.Send, conn.Close, conn.close, chan_send, chan_close.
  destruct (closed (conn.done c)) eqn:Hd; rewrite ?Hi, ?Ho; split; eauto.
Qed.

End ConnInvariant.

(** *** The mutex discipline of the other functions *)

Section LockFacts.
Context {P : Type} `{Peer.Peer string P}.
Import client.
Implicit Types c : Client P.

(** [incr] writes the counter between [Lock] and [Unlock]. *)
Lemma incr_lockDiscipline c :
  mu c = false -> lockDiscipline false (traceOf (incr c)) = true.
Proof. intros Hmu. now rewrite incr_run. Qed.

(** [handleMessage] and [handleReceipt] read their map under the mutex and
    call the handler, or signal the waiter, after releasing it. *)
Lemma handleMessage_lockDiscipline (m : Message string) c :
  mu c = false -> lockDiscipline false (traceOf (handleMessage m c)) = true.
Proof.
  intros Hmu. unfold handleMessage, bind, Lock, Unlock, log. rewrite Hmu. simpl.
  destruct (subs c !! Subs m) as [h|]; simpl; [destruct (h m) |]; reflexivity.
Qed.

Lemma handleReceipt_lockDiscipline (m : Message string) c :
  mu c = false -> lockDiscipline false (traceOf (handleReceipt m c)) = true.
Proof.
  intros Hmu. unfold handleReceipt, bind, Lock, Unlock, log, tokenSend.
  rewrite Hmu. simpl.
  destruct (wait c !! Receipt m) as [ch|]; simpl;
    [destruct (chans c !! ch) as [[|n]|] |]; reflexivity.
Qed.

(** A frame without receipt goes through [sendMessage] without any write
    to the guarded fields. *)
Lemma sendMessage_plain_lockDiscipline fuel (m : Message string) c :
  Receipt m = "" -> lockDiscipline false (traceOf (sendMessage fuel m c)) = true.
Proof.
  intros Hr. rewrite sendMessage_plain by assumption. unfold peerSend.
  destruct (Peer.Send (peer c) m) as [[e p']|v]; reflexivity.
Qed.

(** With a receipt, the first event of [sendMessage] is the unguarded
    write to the wait map, whatever the client and the peer. *)
Lemma sendMessage_receipt_lockDiscipline fuel (m : Message string) c :
  Receipt m <> "" -> lockDiscipline false (traceOf (sendMessage fuel m c)) = false.
Proof.
  intros Hr. destruct (sendMessage_trace fuel m c) as (post & -> & _).
  now rewrite receipt_set.
Qed.

(** [Nack] hands its frame to the peer without registering anything:
    whenever the frame asks for a receipt that has no waiter yet, it
    reaches the peer unregistered. *)
Lemma Nack_unregistered (id : bytes) (opts : list MessageOption) c :
  wantsReceipt (Apply (set_ID (set_Method (NewMessage "") MethodNack) id) opts) = true ->
  wait c !! Receipt (Apply (set_ID (set_Method (NewMessage "") MethodNack) id) opts) = None ->
  waiterRegistered (dom (wait c)) (traceOf (Nack id opts c)) = false.
Proof.
  intros Hw Hnone. unfold Nack, peerSend.
  destruct (Peer.Send (peer c) _) as [[e p']|v]; simpl; rewrite Hw;
    rewrite bool_decide_eq_false_2; try reflexivity;
    now apply not_elem_of_dom.
Qed.

End LockFacts.

(** * Further properties of the code *)

(** ** The serializer and the framing *)

Lemma no_nul_app_inv (s1 s2 : bytes) :
  no_nul (s1 +:+ s2) = true -> no_nul s1 = true /\ no_nul s2 = true.
Proof.
  induction s1 as [|a s1 IH]; [intros Hs; split; [reflexivity | exact Hs] |].
  rewrite string_app_cons. simpl. intros Hs.
  apply andb_true_iff in Hs as [Ha Hs]. apply IH in Hs as [H1 H2].
  rewrite Ha, H1. split; [reflexivity | exact H2].
Qed.

Lemma no_nul_uint (d : Decimal.uint) : no_nul (NilEmpty.string_of_uint d) = true.
Proof. induction d; simpl; auto. Qed.

Lemma no_nul_AppendInt (z : Z) : no_nul (AppendInt z) = true.
Proof.
  unfold AppendInt, NilZero.string_of_int, NilZero.string_of_uint.
  destruct (Z.to_int z) as [d|d]; destruct d; simpl; auto using no_nul_uint.
Qed.

Lemma no_nul_writeHeader (n v : bytes) :
  no_nul n = true -> no_nul v = true -> no_nul (writeHeader n v) = true.
Proof.
  intros Hn Hv. unfold writeHeader.
  repeat (apply no_nul_app; try assumption); reflexivity.
Qed.

Lemma no_nul_writeIfSet (n v : bytes) :
  no_nul n = true -> no_nul v = true -> no_nul (writeIfSet n v) = true.
Proof.
  intros Hn Hv. unfold writeIfSet.
  destruct (String.length v =? 0)%nat; [reflexivity | now apply no_nul_writeHeader].
Qed.

Lemma no_nul_writeItems (c i : Z) (l : list item) :
  forallb (fun it => no_nul (name it) && no_nul (data it)) l = true ->
  no_nul (writeItems c i l) = true.
Proof.
  revert i. induction l as [|it l IH]; intros i Hl; simpl; [reflexivity |].
  simpl in Hl. apply andb_true_iff in Hl as [Hit Hl].
  apply andb_true_iff in Hit as [Hn Hd].
  destruct (c =? i)%Z; [reflexivity |].
  apply no_nul_app; [now apply no_nul_writeHeader | now apply IH].
Qed.

Lemma no_nul_writeTo (m : Message Z) : nulFree m = true -> no_nul (writeTo m) = true.
Proof.
  unfold nulFree. rewrite !andb_true_iff.
  intros ((((((((((((HM & HP) & HD) & HU) & HPa) & HA) & HPr) & HPe) & HR) & HS) & HRc) & HI) & HB).
  assert (Hh : forall n v, no_nul n = true -> no_nul v = true ->
                           no_nul (writeHeader n v) = true)
    by apply no_nul_writeHeader.
  assert (Hs : forall n v, no_nul n = true -> no_nul v = true ->
                           no_nul (writeIfSet n v) = true)
    by apply no_nul_writeIfSet.
  unfold writeTo.
  repeat (apply no_nul_app); try assumption; try reflexivity.
  - unfold writeMethodHeaders.
    repeat match goal with
           | |- context [if ?b then _ else _] => destruct b
           end;
      repeat (apply no_nul_app);
      try reflexivity;
      try (apply Hh); try (apply Hs);
      try assumption; try reflexivity; try apply no_nul_AppendInt.
  - destruct (includeReceiptHeader m); [apply Hh; auto |]; reflexivity.
  - now apply no_nul_writeItems.
Qed.

Lemma string_app_nil_r (s : bytes) : s +:+ "" = s.
Proof. induction s as [|a s IH]; [reflexivity |]. rewrite string_app_cons. now rewrite IH. Qed.

Lemma writeTo_nonempty (m : Message Z) : (String.length (writeTo m) =? 0)%nat = false.
Proof.
  unfold writeTo. rewrite !string_length_app. apply Nat.eqb_neq.
  unfold newline. simpl. lia.
Qed.

Lemma ReadBytes_eof (s : bytes) :
  no_nul s = true -> ReadBytes "000" s = (s, "", Some EOF).
Proof.
  induction s as [|a s IH]; [reflexivity |]. simpl. intros Hs.
  apply andb_true_iff in Hs as [Ha Hs]. apply negb_true_iff in Ha.
  rewrite Ha. now rewrite IH.
Qed.

(** ** The reader task on a whole stream *)

Section ReaderFacts.
Context {I : Type} (zero : I) (Parse : Message I -> bytes -> Message I).
Implicit Types c : @conn.connPeer I.

(** A lone NUL: no message, one more deadline extension, and on with the
    rest. *)
Lemma readInto_heartbeat c (rest : bytes) :
  conn.readInto zero Parse (conn.set_rx c (String "000" rest)) =
  conn.readInto zero Parse (conn.set_beats (conn.set_rx c rest) (S (conn.beats c))).
Proof.
  unfold conn.readInto. simpl. reflexivity.
Qed.

(** The stream ends inside a frame: the bytes read are dropped and the peer
    is closed. *)
Lemma readInto_end c (tail : bytes) :
  no_nul tail = true -> closed_together c -> closed (conn.done c) = false ->
  conn.readInto zero Parse (conn.set_rx c tail) =
  Some (Ok (conn.mk (conn.remote c) "" (conn.beats c)
              (mkChan (buf (conn.done c)) true)
              (mkChan (buf (conn.incoming c)) true)
              (mkChan (buf (conn.outgoing c)) true))).
Proof.
  intros Ht [Hi Ho] Hd. unfold conn.readInto. simpl.
  rewrite ReadBytes_eof by assumption. simpl.
  unfold conn.close, chan_close. simpl. rewrite Hd in Hi, Ho. rewrite Hd, Hi, Ho. reflexivity.
Qed.

Lemma readInto_stream_gen (l : list chunk) (tail : bytes) c :
  forallb goodChunk l = true -> no_nul tail = true ->
  closed_together c -> closed (conn.done c) = false ->
  exists c',
    conn.readInto zero Parse (conn.set_rx c (streamOf l +:+ tail)) = Some (Ok c') /\
    buf (conn.incoming c') =
      (buf (conn.incoming c) ++ map (Parse (NewMessage zero)) (framesOf l))%list /\
    conn.beats c' = (conn.beats c + beatCount l)%nat /\
    closed (conn.done c') = true /\ closed (conn.incoming c') = true /\
    closed (conn.outgoing c') = true /\
    buf (conn.outgoing c') = buf (conn.outgoing c) /\
    conn.rx c' = "".
Proof.
  revert c. induction l as [|k l IH]; intros c Hl Ht Hc Hd.
  - simpl streamOf. rewrite string_app_nil, readInto_end by assumption.
    eexists. split; [reflexivity |]. simpl. rewrite app_nil_r.
    unfold beatCount. simpl. rewrite Nat.add_0_r. repeat split.
  - simpl in Hl. apply andb_true_iff in Hl as [Hk Hl].
    assert (Hi : closed (conn.incoming c) = false) by (destruct Hc; congruence).
    destruct k as [f|]; simpl streamOf; unfold chunkBytes.
    + simpl in Hk. apply andb_true_iff in Hk as [Hf Hne].
      assert (f <> "") by (intros ->; discriminate).
      rewrite !string_app_assoc, string_app_cons, string_app_nil.
      rewrite readInto_frame by assumption.
      change (conn.set_incoming (conn.set_rx c (streamOf l +:+ tail)) ?ch)
        with (conn.set_rx (conn.set_incoming c ch) (streamOf l +:+ tail)).
      match goal with
      | |- context [conn.set_rx ?c1 _] =>
          destruct (IH c1 Hl Ht) as (c' & Hr & Hb & Hbe & Hrest);
          [destruct Hc; split; simpl; congruence | exact Hd |]
      end.
      exists c'. split; [exact Hr |]. split; [| split; [exact Hbe | exact Hrest]].
      rewrite Hb. simpl. now rewrite <- app_assoc.
    + rewrite string_app_assoc, string_app_cons, string_app_nil.
      rewrite readInto_heartbeat.
      change (conn.set_beats (conn.set_rx c (streamOf l +:+ tail)) ?n)
        with (conn.set_rx (conn.set_beats c n) (streamOf l +:+ tail)).
      match goal with
      | |- context [conn.set_rx ?c1 _] =>
          destruct (IH c1 Hl Ht) as (c' & Hr & Hb & Hbe & Hrest);
          [exact Hc | exact Hd |]
      end.
      exists c'. split; [exact Hr |]. split; [exact Hb |]. split; [| exact Hrest].
      rewrite Hbe. unfold beatCount. simpl. lia.
Qed.

End ReaderFacts.

Section ReaderTheorems.
Context {I : Type} (zero : I) (Parse : Message I -> bytes -> Message I).
Implicit Types c : @conn.connPeer I.

(** C6, as the code has it: [bufferLimit] is 1 MiB but [readInto] never
    consults it.  On an open peer every frame of at least one byte before
    its NUL, of whatever length, is parsed and handed to [incoming], and
    the reader goes on with the bytes that follow: the frames and lone NULs
    behind it are handled in turn, to the end of the stream. *)
Theorem readInto_enqueues_any_frame c (f : bytes) (l : list chunk) (tail : bytes) :
  closed_together c -> closed (conn.done c) = false ->
  no_nul f = true -> f <> "" ->
  forallb goodChunk l = true -> no_nul tail = true ->
  bufferLimit = 1048576%Z /\
  exists c',
    conn.readInto zero Parse
      (conn.set_rx c (f +:+ String "000" (streamOf l +:+ tail))) = Some (Ok c') /\
    buf (conn.incoming c') =
      (buf (conn.incoming c) ++
       Parse (NewMessage zero) f :: map (Parse (NewMessage zero)) (framesOf l))%list /\
    conn.beats c' = (conn.beats c + beatCount l)%nat /\
    conn.rx c' = "".
Proof.
  intros Hc Hd Hf Hne Hl Ht. split; [reflexivity |].
  destruct (readInto_stream_gen zero Parse (Frame f :: l) tail c)
    as (c' & Hr & Hb & Hn & _ & _ & _ & _ & Hrx); try assumption.
  - simpl. rewrite Hf, Hl. destruct f; [now elim Hne | reflexivity].
  - exists c'. split; [| split; [exact Hb | split; [exact Hn | exact Hrx]]].
    rewrite <- Hr. simpl streamOf. unfold chunkBytes.
    now rewrite !string_app_assoc, string_app_cons, string_app_nil.
Qed.

(** X1: on an open peer the reader hands over exactly the frames of the
    stream, each parsed, in the order of arrival; it counts one deadline
    extension per lone NUL; a last frame cut off by the end of the stream
    is dropped; and it leaves the three channels closed. *)
Theorem reader_delivers_frames_in_order (l : list chunk) (tail : bytes) c :
  forallb goodChunk l = true -> no_nul tail = true ->
  closed_together c -> closed (conn.done c) = false ->
  exists c',
    conn.readInto zero Parse (conn.set_rx c (streamOf l +:+ tail)) = Some (Ok c') /\
    buf (conn.incoming c') =
      (buf (conn.incoming c) ++ map (Parse (NewMessage zero)) (framesOf l))%list /\
    conn.beats c' = (conn.beats c + beatCount l)%nat /\
    closed (conn.done c') = true /\ closed (conn.incoming c') = true /\
    closed (conn.outgoing c') = true /\
    buf (conn.outgoing c') = buf (conn.outgoing c) /\
    conn.rx c' = "".
Proof. apply readInto_stream_gen. Qed.

Lemma ReadBytes_error (d : ascii) (s b rest : bytes) (e : error) :
  ReadBytes d s = (b, rest, Some e) -> rest = "".
Proof.
  revert b rest. induction s as [|a s IH]; intros b rest; simpl.
  - now intros [= _ <- _].
  - destruct (Ascii.eqb a d); [discriminate |].
    destruct (ReadBytes d s) as [[b' r'] e'] eqn:E. intros [= _ <- ->].
    now apply (IH b' r').
Qed.

Lemma readLoop_closed (fuel : nat) c (r : result (@conn.connPeer I)) :
  closed (conn.done c) = true ->
  conn.readLoop zero Parse fuel c = Some r ->
  exists c', r = Ok c' /\ conn.rx c' = "" /\ conn.incoming c' = conn.incoming c /\
             conn.done c' = conn.done c /\ conn.outgoing c' = conn.outgoing c.
Proof.
  revert c. induction fuel as [|fuel IH]; intros c Hd; simpl; [discriminate |].
  destruct (ReadBytes "000" (conn.rx c)) as [[b rest] err] eqn:E.
  destruct err as [e|].
  - intros [= <-]. apply ReadBytes_error in E. subst rest.
    eexists. repeat split.
  - destruct (String.length b =? 1)%nat; simpl; rewrite ?Hd;
      intros E'; apply IH in E'; try assumption; exact E'.
Qed.

(** With [done] closed a frame is read and dropped ... *)
Lemma readLoop_frame_closed (fuel : nat) c (f rest : bytes) :
  no_nul f = true -> f <> "" -> closed (conn.done c) = true ->
  conn.rx c = f +:+ String "000" rest ->
  conn.readLoop zero Parse (S fuel) c =
  conn.readLoop zero Parse fuel (conn.set_rx c rest).
Proof.
  intros Hf Hne Hd Hrx. simpl. rewrite Hrx, ReadBytes_frame by assumption.
  rewrite frame_not_heartbeat by assumption. simpl. now rewrite Hd.
Qed.

Lemma readInto_frame_closed c (f rest : bytes) :
  no_nul f = true -> f <> "" -> closed (conn.done c) = true ->
  conn.readInto zero Parse (conn.set_rx c (f +:+ String "000" rest)) =
  conn.readInto zero Parse (conn.set_rx c rest).
Proof.
  intros Hf Hne Hd. unfold conn.readInto.
  rewrite (readLoop_frame_closed _ _ f rest) by (assumption || reflexivity).
  change (conn.set_rx (conn.set_rx c (f +:+ String "000" rest)) rest)
    with (conn.set_rx c rest).
  match goal with
  | |- context [conn.readLoop _ _ ?n (conn.set_rx c rest)] =>
      destruct (readLoop_fuel zero Parse n (S (String.length rest)) (conn.set_rx c rest))
        as [-> _]
  end.
  - simpl. rewrite string_length_app. simpl. lia.
  - simpl. lia.
  - reflexivity.
Qed.

(** ... and the end of the stream leaves the closed peer as it is. *)
Lemma readInto_end_closed c (tail : bytes) :
  no_nul tail = true -> closed (conn.done c) = true ->
  conn.readInto zero Parse (conn.set_rx c tail) = Some (Ok (conn.set_rx c "")).
Proof.
  intros Ht Hd. unfold conn.readInto. simpl.
  rewrite ReadBytes_eof by assumption. simpl.
  unfold conn.close. simpl. now rewrite Hd.
Qed.

Lemma readInto_closed_stream (l : list chunk) (tail : bytes) c :
  forallb goodChunk l = true -> no_nul tail = true ->
  closed (conn.done c) = true ->
  conn.readInto zero Parse (conn.set_rx c (streamOf l +:+ tail)) =
    Some (Ok (conn.set_beats (conn.set_rx c "") (conn.beats c + beatCount l))).
Proof.
  revert c. induction l as [|k l IH]; intros c Hl Ht Hd.
  - simpl streamOf. rewrite string_app_nil, readInto_end_closed by assumption.
    unfold beatCount. simpl. rewrite Nat.add_0_r. now destruct c.
  - simpl in Hl. apply andb_true_iff in Hl as [Hk Hl].
    destruct k as [f|]; simpl streamOf; unfold chunkBytes.
    + simpl in Hk. apply andb_true_iff in Hk as [Hf Hne].
      assert (f <> "") by (intros ->; discriminate).
      rewrite !string_app_assoc, string_app_cons, string_app_nil.
      rewrite readInto_frame_closed by assumption.
      rewrite IH by assumption. reflexivity.
    + rewrite string_app_assoc, string_app_cons, string_app_nil.
      rewrite readInto_heartbeat.
      change (conn.set_beats (conn.set_rx c (streamOf l +:+ tail)) (S (conn.beats c)))
        with (conn.set_rx (conn.set_beats c (S (conn.beats c))) (streamOf l +:+ tail)).
      rewrite IH by assumption.
      unfold beatCount. simpl. do 3 f_equal. lia.
Qed.

(** X2: once the peer is closed the reader hands nothing over any more:
    whatever the bytes that still arrive, it reads them to the end of the
    stream, sends nothing on [incoming] (which would panic) and returns
    with the channels as they were; frames are read and dropped, lone NULs
    still extend the deadline. *)
Theorem reader_after_close_drops_frames c :
  closed (conn.done c) = true ->
  (forall input : bytes,
     exists c',
       conn.readInto zero Parse (conn.set_rx c input) = Some (Ok c') /\
       conn.rx c' = "" /\
       conn.incoming c' = conn.incoming c /\
       conn.done c' = conn.done c /\ conn.outgoing c' = conn.outgoing c) /\
  (forall (l : list chunk) (tail : bytes),
     forallb goodChunk l = true -> no_nul tail = true ->
     conn.readInto zero Parse (conn.set_rx c (streamOf l +:+ tail)) =
       Some (Ok (conn.set_beats (conn.set_rx c "") (conn.beats c + beatCount l)))).
Proof.
  intros Hd. split.
  - intros input. unfold conn.readInto.
    destruct (readLoop_fuel zero Parse (S (String.length input))
                (S (String.length input)) (conn.set_rx c input)) as [_ Hsome];
      [simpl; lia | simpl; lia |].
    simpl conn.rx.
    destruct (conn.readLoop zero Parse (S (String.length input)) (conn.set_rx c input))
      as [r|] eqn:E; [| now elim Hsome].
    apply readLoop_closed in E; [| exact Hd].
    destruct E as (c1 & -> & Hrx & Hi & Hdn & Ho).
    unfold conn.close. rewrite Hdn. cbn [conn.done conn.set_rx]. rewrite Hd.
    exists c1. repeat split; assumption.
  - intros l tail Hl Ht. now apply readInto_closed_stream.
Qed.

(** Taken alone, [readInto] returns, with the peer closed. *)
Lemma readInto_returns c :
  closed_together c ->
  exists c',
    conn.readInto zero Parse c = Some (Ok c') /\
    closed (conn.done c') = true /\ closed (conn.incoming c') = true /\
    closed (conn.outgoing c') = true.
Proof.
  intros Hc. unfold conn.readInto.
  destruct (readLoop_fuel zero Parse (S (String.length (conn.rx c)))
              (S (String.length (conn.rx c))) c) as [_ Hsome]; [lia | lia |].
  destruct (conn.readLoop zero Parse (S (String.length (conn.rx c))) c)
    as [r|] eqn:E; [| now elim Hsome].
  apply readLoop_appends in E; [| exact Hc].
  destruct E as (c1 & tl & -> & Hb & Hcl & Hdn & Hout).
  destruct Hc as [Hi Ho].
  unfold conn.close, chan_close. rewrite Hdn, Hcl, Hout.
  destruct (closed (conn.done c)) eqn:Hd.
  - exists c1. rewrite Hdn, Hcl, Hout, Hd, Hi, Ho. repeat split; assumption.
  - rewrite Hi, Ho. eexists. split; [reflexivity |]. repeat split.
Qed.

Lemma readIntoRun_Returned (n : nat) c :
  readIntoRun zero Parse (served n) (Returned, c) = (Returned, c).
Proof. induction n as [|n IH]; [reflexivity | exact IH]. Qed.

(** With the consumer ready after each step and nobody else closing, the
    steps of the reader are the passes of the loop. *)
Lemma readIntoRun_served (fuel : nat) c c1 :
  closed_together c ->
  conn.readLoop zero Parse fuel c = Some (Ok c1) ->
  exists e c' l,
    conn.close c1 = Ok (e, c', l) /\
    readIntoRun zero Parse (served fuel) (AtRead, c) = (Returned, c').
Proof.
  revert c. induction fuel as [|fuel IH]; intros c Hc; [discriminate |].
  cbn [conn.readLoop served readIntoRun fold_left readIntoStep].
  destruct (ReadBytes "000" (conn.rx c)) as [[b rest] err].
  destruct err as [e|].
  - intros [= <-].
    destruct (closed_together_no_panic (conn.set_rx c rest) (NewMessage zero))
      as [_ (e' & c' & l & Hcl)]; [exact Hc |].
    unfold conn.Close in Hcl. rewrite Hcl. exists e', c', l. split; [reflexivity |].
    apply readIntoRun_Returned.
  - destruct (String.length b =? 1)%nat.
    + intros E. apply IH in E; [exact E | exact Hc].
    + cbn [conn.done conn.set_rx conn.incoming]. destruct Hc as [Hi Ho].
      destruct (closed (conn.done c)) eqn:Hd.
      * intros E. apply IH in E; [exact E | split; simpl; congruence].
      * unfold chan_send. rewrite Hi.
        cbn [readIntoStep]. unfold chan_send. cbn [conn.incoming conn.set_rx].
        rewrite Hi. intros E. apply IH in E; [exact E | split; simpl; congruence].
Qed.

(** Without a step of another task that closes the peer, the reader is
    never in its send on a closed channel. *)
Lemma readIntoStep_safe (st : readerAt I * @conn.connPeer I) (t : turn) :
  t <> Closer ->
  closed_together (snd st) ->
  (forall msg, fst st = AtSend msg -> closed (conn.done (snd st)) = false) ->
  (forall v, fst st <> Dead v) ->
  closed_together (snd (readIntoStep zero Parse st t)) /\
  (forall msg, fst (readIntoStep zero Parse st t) = AtSend msg ->
     closed (conn.done (snd (readIntoStep zero Parse st t))) = false) /\
  (forall v, fst (readIntoStep zero Parse st t) <> Dead v).
Proof.
  destruct st as [pc c]. cbn [fst snd]. intros Ht Hc Hs Hd.
  destruct t; [| | now elim Ht]; destruct pc as [|msg| |v]; cbn [readIntoStep];
    try (repeat split; [apply Hc | apply Hc | assumption | assumption]).
  - destruct (ReadBytes "000" (conn.rx c)) as [[b rest] err].
    destruct err as [e|].
    + destruct (closed_together_no_panic (conn.set_rx c rest) (NewMessage zero))
        as [_ (e' & c' & l & Hcl)]; [exact Hc |].
      pose proof (closed_together_Close (conn.set_rx c rest) _ _ _ Hc Hcl) as Hc'.
      unfold conn.Close in Hcl. rewrite Hcl. cbn [fst snd].
      split; [exact Hc' |]. split; [discriminate | discriminate].
    + destruct (String.length b =? 1)%nat; cbn [fst snd];
        [split; [exact Hc |]; split; discriminate |].
      cbn [conn.done conn.set_rx conn.incoming].
      destruct (closed (conn.done c)) eqn:Hdn; cbn [fst snd];
        [split; [exact Hc |]; split; discriminate |].
      unfold chan_send. destruct Hc as [Hi Ho]. rewrite Hi, Hdn. cbn [fst snd].
      split; [split; simpl; congruence |]. split; [intros _ _; exact Hdn | discriminate].
  - specialize (Hs msg eq_refl). unfold chan_send. destruct Hc as [Hi Ho].
    rewrite Hi, Hs. cbn [fst snd].
    split; [split; congruence |]. split; [intros _ _; exact Hs | discriminate].
  - specialize (Hs msg eq_refl). unfold chan_send. destruct Hc as [Hi Ho].
    rewrite Hi, Hs. cbn [fst snd].
    split; [split; simpl; congruence |]. split; discriminate.
Qed.

Lemma readIntoRun_safe (sched : list turn) (st : readerAt I * @conn.connPeer I) :
  ~ In Closer sched ->
  closed_together (snd st) ->
  (forall msg, fst st = AtSend msg -> closed (conn.done (snd st)) = false) ->
  (forall v, fst st <> Dead v) ->
  forall v, fst (readIntoRun zero Parse sched st) <> Dead v.
Proof.
  revert st. induction sched as [|t sched IH]; intros st Hn Hc Hs Hd; [exact Hd |].
  cbn [readIntoRun fold_left].
  destruct (readIntoStep_safe st t) as (Hc' & Hs' & Hd'); try assumption.
  - intros ->. apply Hn. now left.
  - apply IH; try assumption. intros Hin. apply Hn. now right.
Qed.

(** X3: the reader task among the other tasks.  As long as no other task
    closes the peer, the reader never panics, whatever the order of its
    steps and the consumer's; and when the consumer takes each message, it
    returns with the peer closed and with the messages handed over that
    [readInto] taken alone hands over.  But when another task closes the
    peer while the reader is in its send, the reader dies of "send on
    closed channel" and the message is not handed over. *)
Theorem reader_among_tasks c :
  closed_together c ->
  (forall sched v, ~ In Closer sched ->
     fst (readIntoRun zero Parse sched (AtRead, c)) <> Dead v) /\
  (exists c',
     conn.readInto zero Parse c = Some (Ok c') /\
     readIntoRun zero Parse (served (S (String.length (conn.rx c)))) (AtRead, c)
       = (Returned, c') /\
     closed (conn.done c') = true /\ closed (conn.incoming c') = true /\
     closed (conn.outgoing c') = true) /\
  (forall (f rest : bytes), closed (conn.done c) = false ->
     no_nul f = true -> f <> "" -> conn.rx c = f +:+ String "000" rest ->
     readIntoRun zero Parse [Reader; Closer; Reader] (AtRead, c) =
       (Dead (AnyError (RuntimeError "send on closed channel")),
        conn.mk (conn.remote c) rest (conn.beats c)
          (mkChan (buf (conn.done c)) true)
          (mkChan (buf (conn.incoming c)) true)
          (mkChan (buf (conn.outgoing c)) true))).
Proof.
  intros Hc. split; [| split].
  - intros sched v Hn. apply readIntoRun_safe; try assumption; discriminate.
  - destruct (readInto_returns c Hc) as (c' & Hr & H1 & H2 & H3).
    exists c'. split; [exact Hr |]. split; [| repeat split; assumption].
    unfold conn.readInto in Hr.
    destruct (conn.readLoop zero Parse (S (String.length (conn.rx c))) c)
      as [[c1|v]|] eqn:E; try discriminate.
    destruct (readIntoRun_served _ _ _ Hc E) as (e & c2 & l & Hcl & Hrun).
    rewrite Hcl in Hr. injection Hr as <-. exact Hrun.
  - intros f rest Hd Hf Hne Hrx. destruct Hc as [Hi Ho].
    destruct c as [addr rx0 b0 [dbuf dcl] [ibuf icl] [obuf ocl]].
    cbn [conn.rx conn.done conn.incoming conn.outgoing closed] in *. subst.
    cbn [readIntoRun fold_left readIntoStep conn.rx].
    rewrite ReadBytes_frame by assumption.
    rewrite frame_not_heartbeat by assumption.
    reflexivity.
Qed.

(** X4: [Send] keeps the order of its calls: on an open peer a series of
    calls succeeds and leaves the messages on [outgoing] behind those
    already there, in the order of the calls; on a closed peer every call
    returns [io.EOF] and [outgoing] is untouched. *)
Theorem Send_keeps_order c (ms : list (Message I)) :
  closed_together c ->
  exists c',
    sendAll c ms =
      Ok (map (fun _ => if closed (conn.done c) then Some EOF else None) ms, c') /\
    buf (conn.outgoing c') =
      (if closed (conn.done c) then buf (conn.outgoing c)
       else buf (conn.outgoing c) ++ ms)%list /\
    conn.incoming c' = conn.incoming c /\ conn.done c' = conn.done c.
Proof.
  revert c. induction ms as [|m ms IH]; intros c Hc.
  - exists c. simpl. destruct (closed (conn.done c)); rewrite ?app_nil_r; repeat split.
  - simpl. unfold conn.Send, chan_send. destruct Hc as [Hi Ho].
    destruct (closed (conn.done c)) eqn:Hd.
    + destruct (IH c) as (c' & -> & Hb & Hin & Hdn); [split; congruence |].
      rewrite Hd in *. exists c'. repeat split; assumption.
    + rewrite Ho.
      match goal with
      | |- context [sendAll ?c1 ms] =>
          destruct (IH c1) as (c' & -> & Hb & Hin & Hdn);
          [split; simpl; congruence |]
      end.
      simpl in *. rewrite Hd in *. exists c'. repeat split; try assumption.
      rewrite Hb, <- app_assoc. reflexivity.
Qed.

End ReaderTheorems.

(** ** The writer's bytes and the reader *)

Lemma written_stream_gen (l : list wake) (w : bytes) :
  fold_left (fun w k => match k with
                        | WakeMessage msg => writeMessage w msg
                        | WakeHeartbeat => writeHeartbeat w
                        end) l w
  = w +:+ streamOf (map chunkOf l).
Proof.
  revert w. induction l as [|k l IH]; intros w; simpl.
  - now rewrite string_app_nil_r.
  - rewrite IH. destruct k; unfold writeMessage, writeHeartbeat, chunkBytes; simpl;
      now rewrite !string_app_assoc.
Qed.

Lemma written_stream (l : list wake) : written l = streamOf (map chunkOf l).
Proof. unfold written. now rewrite written_stream_gen. Qed.

Lemma framesOf_chunkOf (l : list wake) :
  framesOf (map chunkOf l) = map writeTo (messagesOf l).
Proof.
  induction l as [|k l IH]; [reflexivity |].
  destruct k; simpl; unfold framesOf, messagesOf in *; simpl; now rewrite ?IH.
Qed.

Lemma beatCount_chunkOf (l : list wake) : beatCount (map chunkOf l) = beatsOf l.
Proof.
  induction l as [|k l IH]; [reflexivity |].
  destruct k; unfold beatCount, beatsOf in *; simpl; now rewrite ?IH.
Qed.

Lemma goodChunk_chunkOf (l : list wake) :
  forallb nulFree (messagesOf l) = true -> forallb goodChunk (map chunkOf l) = true.
Proof.
  induction l as [|k l IH]; [reflexivity |].
  destruct k as [msg|]; simpl.
  - intros Hl. apply andb_true_iff in Hl as [Hm Hl].
    rewrite no_nul_writeTo by assumption. rewrite writeTo_nonempty. simpl. now apply IH.
  - exact IH.
Qed.

(** X5: framing round trip.  Whatever messages and heart-beats the writer
    task writes, as long as no field of a message holds a NUL byte, a
    reader fed with these bytes hands over one message per message written,
    parsed from exactly the bytes [writeTo] gave for it, in the order
    written, and counts the heart-beats. *)
Theorem wire_round_trip (Parse : Message Z -> bytes -> Message Z)
    (addr : string) (l : list wake) :
  forallb nulFree (messagesOf l) = true ->
  exists c',
    conn.readInto 0%Z Parse (conn.Conn addr (written l)) = Some (Ok c') /\
    buf (conn.incoming c') =
      map (fun msg => Parse (NewMessage 0%Z) (writeTo msg)) (messagesOf l) /\
    conn.beats c' = beatsOf l.
Proof.
  intros Hl.
  destruct (readInto_stream_gen 0%Z Parse (map chunkOf l) "" (conn.Conn addr ""))
    as (c' & Hr & Hb & Hbe & _);
    [now apply goodChunk_chunkOf | reflexivity | split; reflexivity | reflexivity |].
  exists c'. rewrite written_stream.
  rewrite string_app_nil_r in Hr. split; [exact Hr |].
  rewrite Hb, Hbe, framesOf_chunkOf, beatCount_chunkOf. simpl.
  now rewrite map_map.
Qed.

(** The serialization is the headers, which do not depend on the body,
    followed by the body. *)
Lemma writeTo_body (m : Message Z) :
  writeTo m = writeTo (set_Body m "") +:+ Body m.
Proof.
  change (writeTo (set_Body m ""))
    with (Method m +:+ newline +:+ writeMethodHeaders m +:+
          (if includeReceiptHeader m then writeHeader HeaderReceiptID (Receipt m) else "") +:+
          writeItems (itemc (Header m)) 0 (items (Header m)) +:+ newline +:+ "").
  unfold writeTo. rewrite !string_app_assoc. reflexivity.
Qed.

(** X6: [writeTo] neither escapes nor length-prefixes the body.  When the
    body holds a NUL byte, a reader of the bytes written for the message
    cuts the frame there: it hands over the message with its body
    truncated before the NUL, and takes what follows the NUL for a frame of
    its own. *)
Theorem body_with_NUL_splits_the_frame (Parse : Message Z -> bytes -> Message Z)
    (addr : string) (m : Message Z) (b1 b2 : bytes) :
  nulFree (set_Body m b1) = true ->
  no_nul b2 = true -> b2 <> "" ->
  Body m = b1 +:+ String "000" b2 ->
  exists c',
    conn.readInto 0%Z Parse (conn.Conn addr (writeMessage "" m)) = Some (Ok c') /\
    buf (conn.incoming c') =
      [Parse (NewMessage 0%Z) (writeTo (set_Body m b1)); Parse (NewMessage 0%Z) b2].
Proof.
  intros Hm Hb2 Hne HB.
  destruct (readInto_stream_gen 0%Z Parse
              [Frame (writeTo (set_Body m b1)); Frame b2] "" (conn.Conn addr ""))
    as (c' & Hr & Hb & _).
  - simpl. rewrite no_nul_writeTo, writeTo_nonempty, Hb2 by assumption.
    destruct b2; [now elim Hne | reflexivity].
  - reflexivity.
  - split; reflexivity.
  - reflexivity.
  - exists c'. split; [| exact Hb].
    rewrite <- Hr. f_equal. unfold conn.set_rx, conn.Conn. simpl. f_equal.
    unfold writeMessage. rewrite string_app_nil, (writeTo_body m), HB.
    rewrite (writeTo_body (set_Body m b1)). simpl.
    change (writeTo (set_Body (set_Body m b1) "")) with (writeTo (set_Body m "")).
    repeat rewrite ?string_app_assoc, ?string_app_cons, ?string_app_nil, ?string_app_nil_r.
    reflexivity.
Qed.

Lemma writeItems_past (c i : Z) (l : list item) :
  (c < i)%Z -> writeItems c i l = headerLines l.
Proof.
  revert i. induction l as [|it l IH]; intros i Hi; simpl; [reflexivity |].
  destruct (Z.eqb_spec c i); [lia |]. now rewrite IH by lia.
Qed.

(** X7: the loop of [writeTo] over the generic headers writes the first
    [itemc] items, in order; a count beyond the number of items writes them
    all, and so does a negative count, which the loop index never meets. *)
Theorem writeItems_count_edges (c : Z) (l : list item) :
  writeItems c 0 l =
    headerLines (if (c <? 0)%Z then l else take (Z.to_nat c) l) /\
  ((Z.of_nat (length l) <= c)%Z -> writeItems c 0 l = headerLines l).
Proof.
  assert (E : writeItems c 0 l =
              headerLines (if (c <? 0)%Z then l else take (Z.to_nat c) l)).
  { destruct (Z.ltb_spec c 0).
    - now apply writeItems_past.
    - rewrite writeItems_take by lia. now rewrite Z.sub_0_r. }
  split; [exact E |]. intros Hc. rewrite E.
  destruct (Z.ltb_spec c 0); [reflexivity |].
  now rewrite take_ge by lia.
Qed.

(** ** The client: the mutex is never left held *)

Section MutexFacts.
Context {P : Type} `{Peer.Peer string P}.
Import client.
Implicit Types c : Client P.

Lemma stateOf_before {A} (t : list event) (r : res P A) : stateOf (before t r) = stateOf r.
Proof. destruct r; reflexivity. Qed.

Lemma mutexSafe_ret {A} (a : A) : mutexSafe (P := P) (ret a).
Proof. intros c Hmu. exact Hmu. Qed.

Lemma mutexSafe_bind {A B} (m : M P A) (f : A -> M P B) :
  mutexSafe m -> (forall a, mutexSafe (f a)) -> mutexSafe (bind m f).
Proof.
  intros Hm Hf c Hmu. unfold bind. specialize (Hm c Hmu).
  destruct (m c) as [a c1 t1|v c1 t1|v c1 t1|c1 t1|c1 t1]; simpl in *; try exact Hm.
  rewrite stateOf_before. now apply Hf.
Qed.

Lemma mutexSafe_defer {A} (d : M P unit) (body : M P A) :
  mutexSafe d -> mutexSafe body -> mutexSafe (defer d body).
Proof.
  intros Hd Hb c Hmu. unfold defer. specialize (Hb c Hmu).
  destruct (body c) as [a c1 t1|v c1 t1|v c1 t1|c1 t1|c1 t1]; simpl in *; try exact Hb;
    rewrite stateOf_before; unfold bind; specialize (Hd c1 Hb);
    destruct (d c1) as [[] c2 t2|v2 c2 t2|v2 c2 t2|c2 t2|c2 t2]; simpl in *; exact Hd.
Qed.

Lemma mutexSafe_recovering {A} (h : any -> M P A) (body : M P A) :
  mutexSafe body -> (forall v, mutexSafe (h v)) -> mutexSafe (recovering h body).
Proof.
  intros Hb Hh c Hmu. unfold recovering. specialize (Hb c Hmu).
  destruct (body c) as [a c1 t1|v c1 t1|v c1 t1|c1 t1|c1 t1]; simpl in *; try exact Hb.
  rewrite stateOf_before. now apply Hh.
Qed.

Lemma mutexSafe_otherTask {A} (m : M P A) : mutexSafe m -> mutexSafe (otherTask m).
Proof.
  intros Hm c Hmu. unfold otherTask. specialize (Hm c Hmu).
  destruct (m c); exact Hm.
Qed.

(** A critical section: [Lock], a write, [Unlock]. *)
Lemma mutexSafe_critical {B} (upd : Client P -> Client P) (ev : list event) (k : M P B) :
  (forall c, mu (upd c) = mu c) -> mutexSafe k ->
  mutexSafe (bind Lock (fun _ => bind (fun c => Ret tt (upd c) ev)
                                   (fun _ => bind Unlock (fun _ => k)))).
Proof.
  intros Hupd Hk c Hmu. unfold bind, Lock, Unlock. rewrite Hmu. simpl.
  rewrite Hupd. simpl. rewrite !stateOf_before. apply Hk. reflexivity.
Qed.

Ltac mutex_prim :=
  let c := fresh "c" in
  let Hmu := fresh "Hmu" in
  intros c Hmu;
  cbv beta delta [log release peerSend peerReceive peerClose doneSend makeChan
                  tokenSend tokenRecv stopListening panic];
  repeat match goal with
         | |- context [match ?x with _ => _ end] => destruct x
         end;
  simpl; exact Hmu.

Lemma mutexSafe_log l fmt arg : mutexSafe (P := P) (log l fmt arg).
Proof. mutex_prim. Qed.
Lemma mutexSafe_release m : mutexSafe (P := P) (release m).
Proof. mutex_prim. Qed.
Lemma mutexSafe_peerSend m : mutexSafe (peerSend m).
Proof. mutex_prim. Qed.
Lemma mutexSafe_peerReceive : mutexSafe peerReceive.
Proof. mutex_prim. Qed.
Lemma mutexSafe_peerClose : mutexSafe peerClose.
Proof. mutex_prim. Qed.
Lemma mutexSafe_doneSend e : mutexSafe (P := P) (doneSend e).
Proof. mutex_prim. Qed.
Lemma mutexSafe_makeChan : mutexSafe (P := P) makeChan.
Proof. mutex_prim. Qed.
Lemma mutexSafe_tokenSend ch : mutexSafe (P := P) (tokenSend ch).
Proof. mutex_prim. Qed.
Lemma mutexSafe_tokenRecv ch : mutexSafe (P := P) (tokenRecv ch).
Proof. mutex_prim. Qed.
Lemma mutexSafe_stopListening : mutexSafe (P := P) stopListening.
Proof. mutex_prim. Qed.
Lemma mutexSafe_panic {A} v : mutexSafe (P := P) (@panic P A v).
Proof. mutex_prim. Qed.

Lemma mutexSafe_incr : mutexSafe (P := P) incr.
Proof. intros c Hmu. rewrite incr_run by assumption. exact Hmu. Qed.

Lemma mutexSafe_handleMessage m : mutexSafe (P := P) (handleMessage m).
Proof.
  intros c Hmu. unfold handleMessage, bind, Lock, Unlock, log. rewrite Hmu. simpl.
  destruct (subs c !! Subs m) as [h|]; simpl; [destruct (h m) |]; reflexivity.
Qed.

Lemma mutexSafe_handleReceipt m : mutexSafe (P := P) (handleReceipt m).
Proof.
  intros c Hmu. unfold handleReceipt, bind, Lock, Unlock, log, tokenSend.
  rewrite Hmu. simpl.
  destruct (wait c !! Receipt m) as [ch|]; simpl;
    [destruct (chans c !! ch) as [[|n]|] |]; reflexivity.
Qed.

Create HintDb mutex.
Hint Resolve mutexSafe_ret mutexSafe_log mutexSafe_release mutexSafe_peerSend
  mutexSafe_peerReceive mutexSafe_peerClose mutexSafe_doneSend mutexSafe_makeChan
  mutexSafe_tokenSend mutexSafe_tokenRecv mutexSafe_stopListening mutexSafe_panic
  mutexSafe_incr mutexSafe_handleMessage mutexSafe_handleReceipt : mutex.

Ltac mutex_step :=
  first [ solve [auto with mutex]
        | apply mutexSafe_critical; [intros ?; reflexivity |]
        | apply mutexSafe_bind; [| intros ?]
        | apply mutexSafe_defer
        | apply mutexSafe_recovering; [| intros ?]
        | apply mutexSafe_otherTask
        | match goal with
          | |- mutexSafe (match ?x with _ => _ end) => destruct x
          | |- mutexSafe (if ?x then _ else _) => destruct x
          end ].

Lemma mutexSafe_listenIter : mutexSafe listenIter.
Proof. unfold listenIter. repeat mutex_step. Qed.

Lemma mutexSafe_listenRecover r : mutexSafe (P := P) (listenRecover r).
Proof. unfold listenRecover. repeat mutex_step. Qed.

Hint Resolve mutexSafe_listenIter mutexSafe_listenRecover : mutex.

Lemma mutexSafe_listenStep : mutexSafe listenStep.
Proof. unfold listenStep. repeat mutex_step. Qed.

Lemma mutexSafe_listenLoop fuel : mutexSafe (listenLoop fuel).
Proof.
  induction fuel as [|fuel IH]; simpl.
  - intros c Hmu. exact Hmu.
  - apply mutexSafe_bind; [auto with mutex |]. intros [|]; [exact IH | auto with mutex].
Qed.

Lemma mutexSafe_listen fuel : mutexSafe (listen fuel).
Proof.
  unfold listen. pose proof (mutexSafe_listenLoop fuel). repeat mutex_step.
Qed.

Lemma mutexSafe_await fuel ch : mutexSafe (await fuel ch).
Proof.
  induction fuel as [|fuel IH]; simpl.
  - apply mutexSafe_bind; [auto with mutex |].
    intros [|]; [auto with mutex |].
    intros c Hmu. destruct (listening c); exact Hmu.
  - apply mutexSafe_bind; [auto with mutex |].
    intros [|]; [auto with mutex |].
    intros c Hmu. destruct (listening c); [| exact Hmu].
    apply mutexSafe_bind;
      [apply mutexSafe_otherTask, mutexSafe_listenStep | intros _; exact IH | exact Hmu].
Qed.

Lemma mutexSafe_sendMessage fuel m : mutexSafe (sendMessage fuel m).
Proof.
  unfold sendMessage. pose proof (mutexSafe_await fuel).
  destruct (String.length (Receipt m) =? 0)%nat; [auto with mutex |].
  apply mutexSafe_bind; [auto with mutex | intros ch].
  apply mutexSafe_bind; [intros c Hmu; exact Hmu | intros _].
  apply mutexSafe_defer; [intros c Hmu; exact Hmu |].
  repeat mutex_step.
Qed.

Hint Resolve mutexSafe_sendMessage mutexSafe_listenStep mutexSafe_listen : mutex.

Lemma mutexSafe_Send fuel dest data opts : mutexSafe (Send fuel dest data opts).
Proof. unfold Send. repeat mutex_step. Qed.

Lemma mutexSafe_Subscribe fuel dest handler opts :
  mutexSafe (Subscribe fuel dest handler opts).
Proof. unfold Subscribe. repeat mutex_step. Qed.

Lemma mutexSafe_Unsubscribe fuel id opts : mutexSafe (Unsubscribe fuel id opts).
Proof. unfold Unsubscribe. repeat mutex_step. Qed.

Lemma mutexSafe_Ack fuel id opts : mutexSafe (Ack fuel id opts).
Proof. unfold Ack. repeat mutex_step. Qed.

Lemma mutexSafe_Nack id opts : mutexSafe (P := P) (Nack id opts).
Proof. unfold Nack. repeat mutex_step. Qed.

(** X8: no call on the client, and no run of the listen task, started
    with the mutex free, ends with the mutex held: not when it returns, not
    when it panics (a handler panic included), and not where it waits for a
    receipt, for a frame or for room on a channel. *)
Theorem mutex_never_left_held (fuel : nat) :
  (forall dest data opts, mutexSafe (Send fuel dest data opts)) /\
  (forall dest enc opts, mutexSafe (SendJSON fuel dest enc opts)) /\
  (forall dest handler opts, mutexSafe (Subscribe fuel dest handler opts)) /\
  (forall id opts, mutexSafe (Unsubscribe fuel id opts)) /\
  (forall id opts, mutexSafe (Ack fuel id opts)) /\
  (forall id opts, mutexSafe (Nack id opts)) /\
  (forall opts, mutexSafe (Connect fuel opts)) /\
  mutexSafe (Disconnect fuel) /\
  mutexSafe (P := P) incr /\
  mutexSafe (listen fuel) /\
  mutexSafe listenStep.
Proof.
  pose proof (mutexSafe_Send fuel) as HS.
  repeat split; intros;
    auto using mutexSafe_Subscribe, mutexSafe_Unsubscribe, mutexSafe_Ack,
      mutexSafe_Nack with mutex;
    unfold SendJSON, Connect, Disconnect;
    repeat mutex_step; try apply HS;
    try (intros c Hmu; exact Hmu).
Qed.

End MutexFacts.

(** ** The client: identifiers stay fresh *)

Section FreshAcrossCalls.
Context {P : Type} `{Peer.Peer string P}.
Import client.
Implicit Types c : Client P.

(** [Unsubscribe] removes the key first and does not put it back, however
    the send ends. *)
Lemma Unsubscribe_state fuel (id : bytes) (opts : list MessageOption) c c' :
  mu c = false ->
  c' = stateOf (Unsubscribe fuel id opts c) ->
  subs c' = delete id (subs c) /\ seq c' = seq c.
Proof.
  intros Hmu. unfold Unsubscribe.
  unfold bind at 1 2 3, Lock, Unlock. simpl. rewrite Hmu. simpl.
  match goal with
  | |- context [sendMessage fuel ?m ?c0] =>
      pose proof (sendMessage_keeps fuel m c0) as (Hs & Hq);
      destruct (sendMessage fuel m c0) as [e c1 t1|v c1 t1|v c1 t1|c1 t1|c1 t1]
  end; simpl in *; intros ->; simpl; split; assumption.
Qed.

Lemma afterCall_invariant fuel (k : call) c (n : Z) :
  mu c = false -> idsBelowSeq c -> (seq c <= n)%Z -> (n + 1 < 2 ^ 63)%Z ->
  mu (afterCall fuel k c) = false /\ idsBelowSeq (afterCall fuel k c) /\
  (seq (afterCall fuel k c) <= n + 1)%Z.
Proof.
  intros Hmu Hinv Hn Hlt. destruct k as [dest data opts|dest h opts|id opts|id opts|id opts|];
    simpl.
  - split; [now apply mutexSafe_Send |]. unfold Send.
    match goal with |- context [sendMessage fuel ?m c] =>
      destruct (sendMessage_keeps fuel m c) as [_ Hq]; rewrite Hq;
      split; [now apply idsBelowSeq_sendMessage | lia] end.
  - split; [now apply mutexSafe_Subscribe |].
    destruct Hinv as [Hr Hk].
    split; [apply idsBelowSeq_Subscribe; [assumption | now split | lia] |].
    destruct (Subscribe_state fuel dest h opts c _ Hmu eq_refl) as [Hq _].
    rewrite Hq, wrap64_small by lia. lia.
  - split; [now apply mutexSafe_Unsubscribe |].
    destruct (Unsubscribe_state fuel id opts c _ Hmu eq_refl) as [_ Hq].
    split; [now apply (idsBelowSeq_Unsubscribe fuel id opts c) | lia].
  - split; [now apply mutexSafe_Ack |]. unfold Ack.
    match goal with |- context [sendMessage fuel ?m c] =>
      destruct (sendMessage_keeps fuel m c) as [_ Hq]; rewrite Hq;
      split; [now apply idsBelowSeq_sendMessage | lia] end.
  - split; [now apply mutexSafe_Nack |]. unfold Nack, peerSend.
    destruct (Peer.Send (peer c) _) as [[e p']|v]; simpl; (split; [exact Hinv | lia]).
  - split; [now apply mutexSafe_listenStep |].
    destruct (bystander_listenStep c) as (_ & _ & Hq & _). rewrite Hq.
    split; [now apply idsBelowSeq_listenStep | lia].
Qed.

Lemma afterCalls_invariant fuel (l : list call) c (n : Z) :
  mu c = false -> idsBelowSeq c -> (seq c <= n)%Z ->
  (n + Z.of_nat (length l) < 2 ^ 63)%Z ->
  mu (afterCalls fuel l c) = false /\ idsBelowSeq (afterCalls fuel l c) /\
  (seq (afterCalls fuel l c) <= n + Z.of_nat (length l))%Z.
Proof.
  revert c n. induction l as [|k l IH]; intros c n Hmu Hinv Hn Hlt.
  - simpl. split; [exact Hmu |]. split; [exact Hinv | lia].
  - simpl length in *. rewrite Nat2Z.inj_succ in *.
    destruct (afterCall_invariant fuel k c n Hmu Hinv Hn) as (Hmu' & Hinv' & Hn'); [lia |].
    destruct (IH _ (n + 1)%Z Hmu' Hinv' Hn') as (H1 & H2 & H3); [lia |].
    simpl. split; [exact H1 |]. split; [exact H2 | lia].
Qed.

(** X9: identifiers stay fresh.  On a client built by [New], after any
    series of fewer than 2^63 calls of [Send], [Subscribe], [Unsubscribe],
    [Ack] and [Nack] and steps of the listen task, however each of them
    ended, the mutex is free, every key of [subs] is the text of a number
    below the counter, and the identifier that the next [Subscribe]
    allocates is not a key of [subs]. *)
Theorem subscription_ids_stay_fresh fuel (p : P) (l : list call) :
  (Z.of_nat (length l) < 2 ^ 63)%Z ->
  mu (afterCalls fuel l (New p)) = false /\
  idsBelowSeq (afterCalls fuel l (New p)) /\
  (0 <= seq (afterCalls fuel l (New p)) <= Z.of_nat (length l))%Z /\
  subs (afterCalls fuel l (New p)) !! AppendInt (seq (afterCalls fuel l (New p))) = None.
Proof.
  intros Hl.
  destruct (afterCalls_invariant fuel l (New p) 0) as (Hmu & Hinv & Hq);
    [reflexivity | apply idsBelowSeq_New | simpl; lia | lia |].
  split; [exact Hmu |]. split; [exact Hinv |].
  split; [destruct Hinv as [Hr _]; lia | now apply idsBelowSeq_fresh].
Qed.

End FreshAcrossCalls.

(** ** The client: handshake, subscriptions and receipts *)

Section SessionFacts.
Context {P : Type} `{Peer.Peer string P}.
Import client.
Implicit Types c : Client P.

Ltac run_all :=
  repeat progress
    (unfold bind, defer, recovering, otherTask, makeChan, peerSend, peerReceive,
       peerClose, doneSend, tokenSend, tokenRecv, stopListening, release, log, panic,
       ret, Lock, Unlock, listenStep, listenIter, listenRecover, handleReceipt,
       handleMessage;
     simpl).

(** Rewrite with a lookup equation up to the unfolding of [Handler]. *)
Ltac use_lookup Hs :=
  match type of Hs with
  | _ = ?v =>
      match goal with
      | |- context [@lookup ?K ?A ?M ?i ?k ?mm] =>
          let E := fresh "E" in
          assert (E : @lookup K A M i k mm = v) by exact Hs; rewrite E; clear E
      end
  end.

(** X10: the handshake of [Connect], for a STOMP frame without receipt.
    A failed send is returned as it is, nothing being read; a peer whose
    [Receive] is closed gives [io.EOF]; a first frame that is not CONNECTED
    gives the protocol error, and the frame is released; a CONNECTED frame
    is released, the listen task is started and the call succeeds.  The
    listen task is started in the last case only. *)
Theorem Connect_handshake fuel (opts : list MessageOption) c :
  Receipt (connectFrame opts) = "" ->
  (forall e p1, Peer.Send (peer c) (connectFrame opts) = Ok (Some e, p1) ->
     Connect fuel opts c = Ret (Some e) (set_peer c p1) [EvPeerSend (connectFrame opts)]) /\
  (forall p1 p2, Peer.Send (peer c) (connectFrame opts) = Ok (None, p1) ->
     Peer.Receive p1 = Some (None, p2) ->
     Connect fuel opts c =
       Ret (Some EOF) (set_peer c p2) [EvPeerSend (connectFrame opts); EvPeerRecv None]) /\
  (forall p1 p2 m, Peer.Send (peer c) (connectFrame opts) = Ok (None, p1) ->
     Peer.Receive p1 = Some (Some m, p2) -> Method m <> MethodConnected ->
     Connect fuel opts c =
       Ret (Some (Errorf "stomp: inbound message: unexpected method, want connected"))
         (set_peer c p2)
         [EvPeerSend (connectFrame opts); EvPeerRecv (Some m); EvRelease m]) /\
  (forall p1 p2 m, Peer.Send (peer c) (connectFrame opts) = Ok (None, p1) ->
     Peer.Receive p1 = Some (Some m, p2) -> Method m = MethodConnected ->
     Connect fuel opts c =
       Ret None (set_listening (set_peer c p2) true)
         [EvPeerSend (connectFrame opts); EvPeerRecv (Some m); EvGoListen; EvRelease m]).
Proof.
  intros Hr. unfold Connect. cbv zeta. fold (connectFrame opts).
  repeat split; intros; unfold bind at 1; rewrite sendMessage_plain by assumption.
  - run_all. rewrite H0. reflexivity.
  - run_all. rewrite H0. run_all. rewrite H1. reflexivity.
  - run_all. rewrite H0. run_all. rewrite H1. run_all.
    apply String.eqb_neq in H2. rewrite H2. reflexivity.
  - run_all. rewrite H0. run_all. rewrite H1. run_all.
    apply String.eqb_eq in H2. rewrite H2. reflexivity.
Qed.

(** A MESSAGE for a subscription without handler is logged and dropped. *)
Lemma listenIter_no_handler c (m : Message string) (p' : P) :
  mu c = false -> Peer.Receive (peer c) = Some (Some m, p') ->
  Method m = MethodMessage -> subs c !! Subs m = None ->
  listenIter c =
    Ret true (set_peer c p')
      [EvPeerRecv (Some m); EvLock; EvUnlock;
       EvLog Notice "stomp client: subscription not found: %s" (AnyString (Subs m))].
Proof.
  intros Hmu Hrecv HM Hs. destruct c as [mu0 p0 s0 w0 d0 q0 ch0 l0].
  cbn [mu peer subs] in *. subst mu0.
  run_all. rewrite Hrecv. run_all. rewrite HM. run_all. use_lookup Hs. reflexivity.
Qed.

(** A MESSAGE for a subscription with a handler is passed to it. *)
Lemma listenIter_handler c (m : Message string) (p' : P) (h : Handler) :
  mu c = false -> Peer.Receive (peer c) = Some (Some m, p') ->
  Method m = MethodMessage -> subs c !! Subs m = Some h ->
  listenIter c =
    match h m with
    | None => Ret true (set_peer c p') [EvPeerRecv (Some m); EvLock; EvUnlock; EvHandle (Subs m) m]
    | Some v => Panics v (set_peer c p') [EvPeerRecv (Some m); EvLock; EvUnlock; EvHandle (Subs m) m]
    end.
Proof.
  intros Hmu Hrecv HM Hs. destruct c as [mu0 p0 s0 w0 d0 q0 ch0 l0].
  cbn [mu peer subs] in *. subst mu0.
  run_all. rewrite Hrecv. run_all. rewrite HM. run_all. use_lookup Hs.
  destruct (h m); reflexivity.
Qed.

(** X11: [Unsubscribe] removes the handler before it sends, and does not
    put it back when the send fails or never completes: however the call
    ends, [subs] is the map before the call without the identifier; and a
    MESSAGE frame that arrives for that subscription afterwards is logged
    and dropped, no handler being called. *)
Theorem Unsubscribe_then_message_is_dropped fuel (id : bytes)
    (opts : list MessageOption) c (m : Message string) (p' : P) :
  mu c = false ->
  subs (stateOf (Unsubscribe fuel id opts c)) = delete id (subs c) /\
  (Peer.Receive (peer (stateOf (Unsubscribe fuel id opts c))) = Some (Some m, p') ->
   Method m = MethodMessage -> Subs m = id ->
   listenIter (stateOf (Unsubscribe fuel id opts c)) =
     Ret true (set_peer (stateOf (Unsubscribe fuel id opts c)) p')
       [EvPeerRecv (Some m); EvLock; EvUnlock;
        EvLog Notice "stomp client: subscription not found: %s" (AnyString id)]).
Proof.
  intros Hmu.
  destruct (Unsubscribe_state fuel id opts c _ Hmu eq_refl) as [Hs _].
  split; [exact Hs |]. intros Hrecv HM Hid.
  rewrite (listenIter_no_handler _ m p'); try assumption.
  - now rewrite Hid.
  - now apply mutexSafe_Unsubscribe.
  - rewrite Hs, Hid. apply lookup_delete_eq.
Qed.

(** X12: a [Subscribe] whose frame asks for no receipt and is accepted by
    the peer returns the new identifier and no error, with the handler
    registered under it and the other subscriptions untouched; a MESSAGE
    frame that arrives for that identifier afterwards is passed to that
    handler, once. *)
Theorem Subscribe_then_message_is_handled fuel (dest : string) (handler : Handler)
    (opts : list MessageOption) c (p1 p2 : P) (m : Message string) :
  mu c = false ->
  Receipt (subscribeFrame (AppendInt (seq c)) dest opts) = "" ->
  Peer.Send (peer c) (subscribeFrame (AppendInt (seq c)) dest opts) = Ok (None, p1) ->
  exists c',
    Subscribe fuel dest handler opts c =
      Ret (AppendInt (seq c), None) c'
        [EvLock; EvSeq (wrap64 (seq c + 1)); EvUnlock;
         EvLock; EvSubsSet (AppendInt (seq c)); EvUnlock;
         EvPeerSend (subscribeFrame (AppendInt (seq c)) dest opts)] /\
    subs c' = <[AppendInt (seq c) := handler]> (subs c) /\
    seq c' = wrap64 (seq c + 1) /\ peer c' = p1 /\ wait c' = wait c /\
    (Peer.Receive p1 = Some (Some m, p2) ->
     Method m = MethodMessage -> Subs m = AppendInt (seq c) ->
     traceOf (listenIter c') =
       [EvPeerRecv (Some m); EvLock; EvUnlock; EvHandle (AppendInt (seq c)) m] /\
     (handler m = None -> valueOf (listenIter c') = Some true)).
Proof.
  intros Hmu Hr Hs. unfold Subscribe. unfold bind at 1. rewrite incr_run by assumption.
  cbv zeta. fold (subscribeFrame (AppendInt (seq c)) dest opts).
  destruct c as [mu0 p0 s0 w0 d0 q0 ch0 l0]. simpl in *. subst mu0.
  unfold bind at 1 2 3, Lock, Unlock. simpl.
  unfold bind at 1. rewrite sendMessage_plain by assumption.
  unfold peerSend. simpl. rewrite Hs. simpl.
  eexists. split; [reflexivity |]. simpl. repeat split.
  - rewrite (listenIter_handler _ m p2 handler); try assumption; try reflexivity.
    + rewrite H2. destruct (handler m); reflexivity.
    + simpl. rewrite H2. apply lookup_insert_eq.
  - intros Hh. rewrite (listenIter_handler _ m p2 handler); try assumption; try reflexivity.
    + now rewrite Hh.
    + simpl. rewrite H2. apply lookup_insert_eq.
Qed.

(** X13: receipt correlation in [handleReceipt].  A RECEIPT whose id has
    no waiter is logged and the client is left as it was; a RECEIPT whose
    id has a waiter puts one token on that waiter's channel and on no
    other, the wait map being untouched; and when that channel already
    holds a token (capacity 1), the listen task waits there for ever. *)
Theorem handleReceipt_correlation (m : Message string) c :
  mu c = false ->
  (wait c !! Receipt m = None ->
     handleReceipt m c =
       Ret tt c [EvLock; EvUnlock;
                 EvLog Notice "stomp client: unknown read receipt: %s"
                   (AnyString (Receipt m))]) /\
  (forall ch, wait c !! Receipt m = Some ch -> chans c !! ch = Some O ->
     exists c',
       handleReceipt m c = Ret tt c' [EvLock; EvUnlock; EvTokenSend ch] /\
       chans c' !! ch = Some 1%nat /\
       (forall ch', ch' <> ch -> chans c' !! ch' = chans c !! ch') /\
       wait c' = wait c /\ subs c' = subs c) /\
  (forall ch n, wait c !! Receipt m = Some ch -> chans c !! ch = Some (S n) ->
     handleReceipt m c = Blocks c [EvLock; EvUnlock]).
Proof.
  intros Hmu. destruct c as [mu0 p0 s0 w0 d0 q0 ch0 l0].
  cbn [mu wait chans] in *. subst mu0.
  split; [| split].
  - intros Hw. run_all. use_lookup Hw. reflexivity.
  - intros ch Hw Hc. run_all. use_lookup Hw. simpl. rewrite Hc.
    eexists. split; [reflexivity |]. simpl.
    split; [apply list_lookup_insert_eq; now apply lookup_lt_Some in Hc |].
    split; [| split; reflexivity].
    intros ch' Hne. now apply list_lookup_insert_ne.
  - intros ch n Hw Hc. run_all. use_lookup Hw. simpl. rewrite Hc. reflexivity.
Qed.

(** X14: the wait for a receipt has no way out.  With no listen task the
    call waits for ever once the frame is handed over; and when the peer's
    [Receive] is found closed, the listen task delivers [io.EOF] on [done]
    and ends, but the caller still waits for ever.  In both cases the
    waiter stays in the wait map. *)
Theorem sendMessage_waits_for_ever fuel (m : Message string) c (p1 : P) :
  Receipt m <> "" ->
  Peer.Send (peer c) m = Ok (None, p1) ->
  (listening c = false ->
     exists c',
       sendMessage fuel m c =
         Blocks c' [EvWaitSet (Receipt m) (length (chans c)); EvPeerSend m] /\
       wait c' !! Receipt m = Some (length (chans c))) /\
  (forall p2, listening c = true -> done c = [] ->
     Peer.Receive p1 = Some (None, p2) ->
     exists c',
       sendMessage (S fuel) m c =
         Blocks c' [EvWaitSet (Receipt m) (length (chans c)); EvPeerSend m;
                    EvPeerRecv None; EvDone EOF] /\
       wait c' !! Receipt m = Some (length (chans c)) /\
       Done c' = [EOF] /\ listening c' = false).
Proof.
  intros Hr Hs.
  destruct c as [mu0 p0 s0 w0 d0 q0 ch0 l0]. cbn [peer listening done chans] in *.
  assert (Hlook : (ch0 ++ [O])%list !! length ch0 = Some O).
  { rewrite lookup_app_r by lia. now rewrite Nat.sub_diag. }
  split.
  - intros ->. unfold sendMessage. rewrite receipt_set by assumption.
    destruct fuel; cbn [await]; run_all; rewrite Hs; run_all; rewrite Hlook; run_all;
      (eexists; split; [reflexivity |]; simpl; apply lookup_insert_eq).
  - intros p2 -> -> Hrecv. unfold sendMessage. rewrite receipt_set by assumption.
    cbn [await]. run_all. rewrite Hs. run_all. rewrite Hlook. run_all.
    rewrite Hrecv. run_all.
    destruct fuel; cbn [await]; run_all; rewrite Hlook; run_all;
      (eexists; split; [reflexivity |]; simpl;
       split; [apply lookup_insert_eq | split; reflexivity]).
Qed.

(** X15: how the listen task ends.  When the peer's [Receive] is closed it
    delivers [io.EOF] on [done] and returns; when a handler panics with an
    error it logs the panic, delivers that error on [done] and returns.
    Either way the task is over and [done] holds exactly that one error. *)
Theorem listen_delivers_terminal_error fuel c :
  mu c = false -> done c = [] ->
  (forall p', Peer.Receive (peer c) = Some (None, p') ->
     listen (S fuel) c =
       Ret tt (set_listening (set_done (set_peer c p') [EOF]) false)
         [EvPeerRecv None; EvDone EOF]) /\
  (forall p' m h e, Peer.Receive (peer c) = Some (Some m, p') ->
     Method m = MethodMessage -> subs c !! Subs m = Some h ->
     h m = Some (AnyError e) ->
     listen (S fuel) c =
       Ret tt (set_listening (set_done (set_peer c p') [e]) false)
         [EvPeerRecv (Some m); EvLock; EvUnlock; EvHandle (Subs m) m;
          EvLog Warning "stomp client: recover panic: %s" (AnyError e); EvDone e]).
Proof.
  intros Hmu Hd. destruct c as [mu0 p0 s0 w0 d0 q0 ch0 l0].
  cbn [mu done peer subs] in *. subst mu0 d0.
  split.
  - intros p' Hrecv. unfold listen. cbn [listenLoop]. run_all. rewrite Hrecv. reflexivity.
  - intros p' m h e Hrecv HM Hs Hh. unfold listen. cbn [listenLoop]. run_all.
    rewrite Hrecv. run_all. rewrite HM. run_all. use_lookup Hs. rewrite Hh. reflexivity.
Qed.

(** X16: [Send] with a receipt.  With the listen task running, the frame
    accepted by the peer and the matching RECEIPT next on the peer, [Send]
    returns success after the listen task has signalled the waiter.  The
    deferred removal takes away the entry under the receipt id that the
    message holds when it runs: where the peer has left that field as it
    was, the wait map is again what it was before the call; where it has
    not (the socket peer's writer releases the message), the waiter of the
    call stays in the wait map. *)
Theorem Send_returns_after_receipt fuel (dest : string) (data : bytes)
    (opts : list MessageOption) (rc : Message string) c (p1 p2 : P) :
  Receipt (sendFrameOf dest data opts) <> "" ->
  wait c !! Receipt (sendFrameOf dest data opts) = None ->
  mu c = false -> listening c = true ->
  Peer.Send (peer c) (sendFrameOf dest data opts) = Ok (None, p1) ->
  Peer.Receive p1 = Some (Some rc, p2) ->
  Method rc = MethodRecipet -> Receipt rc = Receipt (sendFrameOf dest data opts) ->
  exists c',
    Send (S fuel) dest data opts c =
      Ret None c'
        [EvWaitSet (Receipt (sendFrameOf dest data opts)) (length (chans c));
         EvPeerSend (sendFrameOf dest data opts);
         EvPeerRecv (Some rc); EvLock; EvUnlock;
         EvTokenSend (length (chans c)); EvTokenRecv (length (chans c));
         EvWaitDel (Receipt (Peer.Kept p2 (sendFrameOf dest data opts)))] /\
    wait c' =
      delete (Receipt (Peer.Kept p2 (sendFrameOf dest data opts)))
        (<[Receipt (sendFrameOf dest data opts) := length (chans c)]> (wait c)) /\
    (Receipt (Peer.Kept p2 (sendFrameOf dest data opts))
       = Receipt (sendFrameOf dest data opts) -> wait c' = wait c) /\
    (Receipt (Peer.Kept p2 (sendFrameOf dest data opts))
       <> Receipt (sendFrameOf dest data opts) ->
     wait c' !! Receipt (sendFrameOf dest data opts) = Some (length (chans c))) /\
    peer c' = p2 /\ mu c' = false.
Proof.
  intros Hr Hfresh Hmu Hl Hs Hrecv HM HR.
  unfold Send. cbv zeta. fold (sendFrameOf dest data opts).
  destruct (sendMessage_receipt_arrives fuel _ rc c p1 p2 Hr Hmu Hl Hs Hrecv HM HR)
    as (c' & Hrun & Hw & Hp).
  exists c'. split; [exact Hrun |]. split; [exact Hw |].
  split; [| split; [| split; [exact Hp |]]].
  - intros E. rewrite Hw, E, delete_insert_eq. now apply delete_id.
  - intros E. rewrite Hw, lookup_delete_ne by exact E. apply lookup_insert_eq.
  - pose proof (mutexSafe_sendMessage (S fuel) (sendFrameOf dest data opts) c Hmu) as Hm.
    now rewrite Hrun in Hm.
Qed.

End SessionFacts.

(** ** The client over the socket peer *)

Section OverTheSocket.
Import client.
Implicit Types c : Client (@conn.connPeer string).

(** X17: [Disconnect] on a client over the socket peer.  Its frame asks
    for no receipt, so it does not wait for the listen task.  On an open
    peer it hands the DISCONNECT frame over behind the frames already on
    [outgoing], closes the three channels and returns no error, [subs] and
    [wait] being left as they are; called again, or on a peer already
    closed, it hands nothing over, changes nothing and returns [io.EOF],
    which is the result of [Close]: the result of the send is dropped. *)
Theorem Disconnect_closes_the_peer fuel c :
  closed_together (peer c) ->
  (closed (conn.done (peer c)) = false ->
   exists c',
     Disconnect fuel c = Ret None c' [EvPeerSend disconnectFrame; EvPeerClose] /\
     buf (conn.outgoing (peer c')) =
       (buf (conn.outgoing (peer c)) ++ [disconnectFrame])%list /\
     conn.incoming (peer c') = mkChan (buf (conn.incoming (peer c))) true /\
     closed (conn.done (peer c')) = true /\
     closed (conn.outgoing (peer c')) = true /\
     subs c' = subs c /\ wait c' = wait c /\
     Disconnect fuel c' = Ret (Some EOF) c' [EvPeerSend disconnectFrame; EvPeerClose]) /\
  (closed (conn.done (peer c)) = true ->
   Disconnect fuel c = Ret (Some EOF) c [EvPeerSend disconnectFrame; EvPeerClose]).
Proof.
  intros [Hi Ho].
  destruct c as [mu0 p0 s0 w0 d0 q0 ch0 l0].
  destruct p0 as [addr rx0 b0 [dbuf dcl] [ibuf icl] [obuf ocl]].
  cbn [peer conn.done conn.incoming conn.outgoing closed buf] in *. subst icl ocl.
  unfold Disconnect. cbv zeta. fold disconnectFrame.
  split; intros ->.
  - unfold bind at 1. rewrite sendMessage_plain by reflexivity.
    eexists. split; [reflexivity |]. cbn.
    repeat split.
  - unfold bind at 1. rewrite sendMessage_plain by reflexivity. reflexivity.
Qed.

End OverTheSocket.

(** ** Concrete runs *)

Lemma readInto_enqueues_any_frame_witness :
  closed_together (@conn.Conn Z "srv" "") /\
  closed (conn.done (@conn.Conn Z "srv" "")) = false /\
  bufferLimit = 1048576%Z /\
  exists c',
    conn.readInto 0%Z (fun m b => set_Body m b)
      (conn.set_rx (@conn.Conn Z "srv" "")
         ("ACK" +:+ String "000" (streamOf [Beat; Frame "B"] +:+ ""))) = Some (Ok c') /\
    buf (conn.incoming c') =
      [set_Body (NewMessage 0%Z) "ACK"; set_Body (NewMessage 0%Z) "B"] /\
    conn.beats c' = 1%nat /\
    conn.rx c' = "".
Proof.
  split; [split; reflexivity |]. split; [reflexivity |].
  apply (readInto_enqueues_any_frame 0%Z (fun m b => set_Body m b)
           (@conn.Conn Z "srv" "") "ACK" [Beat; Frame "B"] "");
    [split; reflexivity | reflexivity | reflexivity | discriminate
    | reflexivity | reflexivity].
Defined.

Lemma reader_delivers_frames_in_order_witness :
  exists c',
    conn.readInto "" (fun m b => set_Body m b)
      (conn.set_rx freshPeer (streamOf [Frame "A"; Beat; Frame "B"] +:+ "cut"))
      = Some (Ok c') /\
    buf (conn.incoming c') =
      [set_Body (NewMessage "") "A"; set_Body (NewMessage "") "B"] /\
    conn.beats c' = 1%nat /\
    closed (conn.incoming c') = true.
Proof.
  destruct (reader_delivers_frames_in_order "" (fun m b => set_Body m b)
              [Frame "A"; Beat; Frame "B"] "cut" freshPeer)
    as (c' & Hr & Hb & Hn & _ & Hc & _).
  - reflexivity.
  - reflexivity.
  - split; reflexivity.
  - reflexivity.
  - exists c'. split; [exact Hr |]. split; [exact Hb |]. split; [exact Hn | exact Hc].
Defined.

Lemma reader_after_close_drops_frames_witness :
  closed (conn.done closedPeer) = true /\
  conn.readInto "" (fun m b => set_Body m b)
    (conn.set_rx closedPeer (streamOf [Frame "A"; Beat; Frame "B"] +:+ "cut")) =
    Some (Ok (conn.set_beats closedPeer 1)).
Proof.
  split; [reflexivity |].
  exact (proj2 (reader_after_close_drops_frames "" (fun m b => set_Body m b)
                  closedPeer eq_refl)
           [Frame "A"; Beat; Frame "B"] "cut" eq_refl eq_refl).
Defined.

Lemma reader_among_tasks_witness :
  closed_together (conn.set_rx freshPeer (String "A" (String "000" "B"))) /\
  readIntoRun "" (fun m b => set_Body m b) [Reader; Closer; Reader]
    (AtRead, conn.set_rx freshPeer (String "A" (String "000" "B"))) =
    (Dead (AnyError (RuntimeError "send on closed channel")),
     conn.mk "srv" "B" 0 (mkChan [] true) (mkChan [] true) (mkChan [] true)).
Proof.
  split; [split; reflexivity |].
  exact (proj2 (proj2 (reader_among_tasks "" (fun m b => set_Body m b)
                         (conn.set_rx freshPeer (String "A" (String "000" "B")))
                         (conj eq_refl eq_refl)))
           "A" "B" eq_refl eq_refl ltac:(discriminate) eq_refl).
Defined.

Lemma Send_keeps_order_witness :
  closed_together freshPeer /\
  exists c',
    sendAll freshPeer [errorFrame; receiptFrame "1"] = Ok ([None; None], c') /\
    buf (conn.outgoing c') = [errorFrame; receiptFrame "1"].
Proof.
  split; [split; reflexivity |].
  destruct (Send_keeps_order freshPeer [errorFrame; receiptFrame "1"])
    as (c' & Hs & Hb & _); [split; reflexivity |].
  exists c'. split; [exact Hs | exact Hb].
Defined.

Lemma wire_round_trip_witness :
  forallb nulFree (messagesOf [WakeMessage sendWithReceipt; WakeHeartbeat]) = true /\
  exists c',
    conn.readInto 0%Z (fun m b => set_Body m b)
      (conn.Conn "srv" (written [WakeMessage sendWithReceipt; WakeHeartbeat]))
      = Some (Ok c') /\
    buf (conn.incoming c') = [set_Body (NewMessage 0%Z) (writeTo sendWithReceipt)] /\
    conn.beats c' = 1%nat.
Proof.
  split; [reflexivity |].
  apply (wire_round_trip (fun m b => set_Body m b) "srv"
           [WakeMessage sendWithReceipt; WakeHeartbeat]).
  reflexivity.
Defined.

Lemma body_with_NUL_splits_the_frame_witness :
  Body (set_Body sendWithReceipt (String "a" (String "000" "b")))
    = "a" +:+ String "000" "b" /\
  exists c',
    conn.readInto 0%Z (fun m b => set_Body m b)
      (conn.Conn "srv"
         (writeMessage "" (set_Body sendWithReceipt (String "a" (String "000" "b")))))
      = Some (Ok c') /\
    buf (conn.incoming c') =
      [set_Body (NewMessage 0%Z) (writeTo (set_Body sendWithReceipt "a"));
       set_Body (NewMessage 0%Z) "b"].
Proof.
  split; [reflexivity |].
  apply (body_with_NUL_splits_the_frame (fun m b => set_Body m b) "srv"
           (set_Body sendWithReceipt (String "a" (String "000" "b"))) "a" "b").
  - reflexivity.
  - reflexivity.
  - discriminate.
  - reflexivity.
Defined.

Lemma writeItems_count_edges_witness :
  (Z.of_nat (length [mkItem "a" "1"; mkItem "b" "2"]) <= 5)%Z /\
  writeItems 5 0 [mkItem "a" "1"; mkItem "b" "2"]
    = headerLines [mkItem "a" "1"; mkItem "b" "2"].
Proof.
  assert (Hle : (Z.of_nat (length [mkItem "a" "1"; mkItem "b" "2"]) <= 5)%Z)
    by (simpl; lia).
  split; [exact Hle |].
  exact (proj2 (writeItems_count_edges 5 [mkItem "a" "1"; mkItem "b" "2"]) Hle).
Defined.

Lemma subscription_ids_stay_fresh_witness :
  client.mu (afterCalls 1 [CallSubscribe "/topic/x" quietHandler []; CallUnsubscribe "0" []]
               (client.New freshPeer)) = false /\
  client.subs (afterCalls 1 [CallSubscribe "/topic/x" quietHandler []; CallUnsubscribe "0" []]
                 (client.New freshPeer))
    !! AppendInt (client.seq
                    (afterCalls 1 [CallSubscribe "/topic/x" quietHandler [];
                                   CallUnsubscribe "0" []] (client.New freshPeer))) = None.
Proof.
  destruct (subscription_ids_stay_fresh 1 freshPeer
              [CallSubscribe "/topic/x" quietHandler []; CallUnsubscribe "0" []])
    as (Hmu & _ & _ & Hfresh); [simpl; lia |].
  split; [exact Hmu | exact Hfresh].
Defined.

Lemma Connect_handshake_witness :
  Receipt (connectFrame []) = "" /\
  client.Connect 1 []
    (client.New (peerWith [set_Method (NewMessage "") MethodConnected])) =
    client.Ret None
      (client.set_listening
         (client.set_peer
            (client.New (peerWith [set_Method (NewMessage "") MethodConnected]))
            (conn.mk "srv" "" 0 make_chan make_chan (mkChan [connectFrame []] false)))
         true)
      [EvPeerSend (connectFrame []);
       EvPeerRecv (Some (set_Method (NewMessage "") MethodConnected));
       EvGoListen; EvRelease (set_Method (NewMessage "") MethodConnected)].
Proof.
  split; [reflexivity |].
  apply (proj2 (proj2 (proj2
           (Connect_handshake 1 []
              (client.New (peerWith [set_Method (NewMessage "") MethodConnected]))
              eq_refl)))
           (conn.mk "srv" "" 0 make_chan
              (mkChan [set_Method (NewMessage "") MethodConnected] false)
              (mkChan [connectFrame []] false))
           (conn.mk "srv" "" 0 make_chan make_chan (mkChan [connectFrame []] false))
           (set_Method (NewMessage "") MethodConnected)).
  - reflexivity.
  - reflexivity.
  - reflexivity.
Defined.

Lemma Unsubscribe_then_message_is_dropped_witness :
  client.mu (listeningClient quietHandler [messageFrame "0"]) = false /\
  client.subs (stateOf (client.Unsubscribe 1 "0" []
                          (listeningClient quietHandler [messageFrame "0"])))
    = delete "0" (client.subs (listeningClient quietHandler [messageFrame "0"])) /\
  traceOf (client.listenIter
             (stateOf (client.Unsubscribe 1 "0" []
                         (listeningClient quietHandler [messageFrame "0"])))) =
    [EvPeerRecv (Some (messageFrame "0")); EvLock; EvUnlock;
     EvLog Notice "stomp client: subscription not found: %s" (AnyString "0")].
Proof.
  split; [reflexivity |].
  pose proof (Unsubscribe_then_message_is_dropped 1 "0" []
                (listeningClient quietHandler [messageFrame "0"]) (messageFrame "0")
                (conn.mk "srv" "" 0 make_chan make_chan
                   (mkChan [unsubscribeFrame "0" []] false)) eq_refl) as [Hs Hm].
  split; [exact Hs |].
  rewrite Hm; reflexivity.
Defined.

Lemma Subscribe_then_message_is_handled_witness :
  client.mu freshClient = false /\
  Receipt (subscribeFrame (AppendInt (client.seq freshClient)) "/topic/x" []) = "" /\
  exists c',
    valueOf (client.Subscribe 1 "/topic/x" quietHandler [] freshClient)
      = Some (AppendInt 0, None) /\
    stateOf (client.Subscribe 1 "/topic/x" quietHandler [] freshClient) = c' /\
    client.subs c' = <[AppendInt 0 := quietHandler]> (client.subs freshClient).
Proof.
  split; [reflexivity |]. split; [reflexivity |].
  assert (Hsend : Peer.Send (client.peer freshClient)
                    (subscribeFrame (AppendInt (client.seq freshClient)) "/topic/x" [])
                  = Ok (None, conn.mk "srv" "" 0 make_chan make_chan
                                (mkChan [subscribeFrame "0" "/topic/x" []] false)))
    by (vm_compute; reflexivity).
  destruct (Subscribe_then_message_is_handled 1 "/topic/x" quietHandler [] freshClient
              (conn.mk "srv" "" 0 make_chan make_chan
                 (mkChan [subscribeFrame "0" "/topic/x" []] false))
              freshPeer (messageFrame "0") eq_refl eq_refl Hsend)
    as (c' & Hrun & Hsubs & _).
  exists c'. rewrite Hrun. split; [reflexivity |]. split; [reflexivity | exact Hsubs].
Defined.

Lemma handleReceipt_correlation_witness :
  exists c',
    client.handleReceipt (receiptFrame "42")
      (client.mkClient false freshPeer ∅ {["42" := O]} [] 0 [O] true) =
      client.Ret tt c' [EvLock; EvUnlock; EvTokenSend 0] /\
    client.chans c' !! O = Some 1%nat.
Proof.
  assert (Hw : client.wait (client.mkClient false freshPeer ∅ {["42" := O]} [] 0 [O] true)
                 !! Receipt (receiptFrame "42") = Some O)
    by (vm_compute; reflexivity).
  destruct (proj1 (proj2 (handleReceipt_correlation (receiptFrame "42")
              (client.mkClient false freshPeer ∅ {["42" := O]} [] 0 [O] true) eq_refl))
              O Hw eq_refl) as (c' & Hrun & Hch & _).
  exists c'. split; [exact Hrun | exact Hch].
Defined.

Lemma sendMessage_waits_for_ever_witness :
  Receipt (sendFrame "hello" 42) <> "" /\
  exists c',
    client.sendMessage 1 (sendFrame "hello" 42) freshClient =
      client.Blocks c' [EvWaitSet (Receipt (sendFrame "hello" 42)) 0;
                        EvPeerSend (sendFrame "hello" 42)] /\
    client.wait c' !! Receipt (sendFrame "hello" 42) = Some O.
Proof.
  assert (Hne : Receipt (sendFrame "hello" 42) <> "") by discriminate.
  split; [exact Hne |].
  exact (proj1 (sendMessage_waits_for_ever 1 (sendFrame "hello" 42)
                  freshClient
                  (conn.mk "srv" "" 0 make_chan make_chan
                     (mkChan [sendFrame "hello" 42] false)) Hne eq_refl) eq_refl).
Defined.

Lemma listen_delivers_terminal_error_witness :
  client.listen 1 (client.New closedPeer) =
    client.Ret tt
      (client.set_listening
         (client.set_done (client.set_peer (client.New closedPeer) closedPeer) [EOF]) false)
      [EvPeerRecv None; EvDone EOF].
Proof.
  exact (proj1 (listen_delivers_terminal_error 0 (client.New closedPeer) eq_refl eq_refl)
           closedPeer eq_refl).
Defined.

Lemma Send_returns_after_receipt_witness :
  Receipt (sendFrameOf "/q" "hello" [WithReceipt 42]) <> "" /\
  exists c',
    client.Send 1 "/q" "hello" [WithReceipt 42]
      (listeningClient quietHandler [receiptFrame "42"]) =
      client.Ret None c'
        [EvWaitSet (Receipt (sendFrameOf "/q" "hello" [WithReceipt 42])) 0;
         EvPeerSend (sendFrameOf "/q" "hello" [WithReceipt 42]);
         EvPeerRecv (Some (receiptFrame "42")); EvLock; EvUnlock;
         EvTokenSend 0; EvTokenRecv 0; EvWaitDel ""] /\
    client.wait c' !! Receipt (sendFrameOf "/q" "hello" [WithReceipt 42]) = Some O.
Proof.
  assert (Hne : Receipt (sendFrameOf "/q" "hello" [WithReceipt 42]) <> "") by discriminate.
  split; [exact Hne |].
  assert (Hfresh : client.wait (listeningClient quietHandler [receiptFrame "42"])
                     !! Receipt (sendFrameOf "/q" "hello" [WithReceipt 42]) = None)
    by (vm_compute; reflexivity).
  assert (Hsend : Peer.Send (client.peer (listeningClient quietHandler [receiptFrame "42"]))
                    (sendFrameOf "/q" "hello" [WithReceipt 42])
                  = Ok (None,
                        conn.mk "srv" "" 0 make_chan (mkChan [receiptFrame "42"] false)
                          (mkChan [sendFrameOf "/q" "hello" [WithReceipt 42]] false)))
    by (vm_compute; reflexivity).
  assert (Hid : Receipt (receiptFrame "42")
                = Receipt (sendFrameOf "/q" "hello" [WithReceipt 42]))
    by (vm_compute; reflexivity).
  destruct (Send_returns_after_receipt 0 "/q" "hello" [WithReceipt 42]
              (receiptFrame "42") (listeningClient quietHandler [receiptFrame "42"])
              (conn.mk "srv" "" 0 make_chan (mkChan [receiptFrame "42"] false)
                 (mkChan [sendFrameOf "/q" "hello" [WithReceipt 42]] false))
              (conn.mk "srv" "" 0 make_chan make_chan
                 (mkChan [sendFrameOf "/q" "hello" [WithReceipt 42]] false))
              Hne Hfresh eq_refl eq_refl Hsend eq_refl eq_refl Hid)
    as (c' & Hrun & _ & _ & Hstays & _).
  exists c'. split; [exact Hrun |].
  apply Hstays. vm_compute. discriminate.
Defined.

Lemma Disconnect_closes_the_peer_witness :
  closed_together (client.peer freshClient) /\
  closed (conn.done (client.peer freshClient)) = false /\
  exists c',
    client.Disconnect 1 freshClient =
      client.Ret None c' [EvPeerSend disconnectFrame; EvPeerClose] /\
    buf (conn.outgoing (client.peer c')) = [disconnectFrame] /\
    client.Disconnect 1 c' =
      client.Ret (Some EOF) c' [EvPeerSend disconnectFrame; EvPeerClose].
Proof.
  split; [split; reflexivity |]. split; [reflexivity |].
  destruct (proj1 (Disconnect_closes_the_peer 1 freshClient (conj eq_refl eq_refl)) eq_refl)
    as (c' & Hrun & Hb & _ & _ & _ & _ & _ & Hagain).
  exists c'. split; [exact Hrun |]. split; [exact Hb | exact Hagain].
Defined.
